(** * SmartInvoice: the invoice poller (sms.js) and its database module
    (config/db.js), embedded in Rocq.

    The program is a sequence of awaited calls on external services (an MSSQL
    database, Google Drive, the textit.biz SMS gateway, the local file
    system).  It is modelled as a state-and-exception monad over a [World]
    that holds the state of those services, with a third outcome for
    [process.exit].  What the outside world decides (which call fails, what a
    service answers, what the operator types) is read from an [Env] of oracles
    indexed by the number of external calls made so far.

    Strings are sequences of code units below 256.  Console output is not
    modelled.

    The callbacks of the event loop run one after the other.  A ["tokens"]
    event, which the OAuth2 client emits when the library refreshes the
    access token on the way of a Drive request, is run as a callback of its
    own, beside the tick or the sweep that made the request and not inside
    it. *)

From Stdlib Require Import ZArith Ascii String.
From stdpp Require Import base tactics option list strings pretty gmap sorting.

Local Open Scope Z_scope.

(* ===================================================================== *)
(** * JavaScript string operations used by the program                    *)
(* ===================================================================== *)

Module Js.

(** [\d] of a JavaScript regular expression: the ten ASCII digits. *)
Definition is_digit (c : ascii) : bool :=
  (48 <=? nat_of_ascii c)%nat && (nat_of_ascii c <=? 57)%nat.

Fixpoint all_digits (s : string) : bool :=
  match s with
  | EmptyString => true
  | String c s' => is_digit c && all_digits s'
  end.

(** [s.slice(n)] for [0 <= n]. *)
Fixpoint slice (n : nat) (s : string) : string :=
  match n, s with
  | O, _ => s
  | S n', String _ s' => slice n' s'
  | S _, EmptyString => EmptyString
  end.

(** White space of [String.prototype.trim] among the code units below 256:
    TAB, LF, VT, FF, CR, SPACE and NBSP. *)
Definition is_white (c : ascii) : bool :=
  let n := nat_of_ascii c in
  ((9 <=? n)%nat && (n <=? 13)%nat) || (n =? 32)%nat || (n =? 160)%nat.

Fixpoint trim_start (s : string) : string :=
  match s with
  | String c s' => if is_white c then trim_start s' else s
  | EmptyString => EmptyString
  end.

(** [trim_end] keeps a character when it is not white space or when
    something is kept after it. *)
Fixpoint trim_end (s : string) : string :=
  match s with
  | EmptyString => EmptyString
  | String c s' =>
      match trim_end s' with
      | EmptyString => if is_white c then EmptyString else String c EmptyString
      | t => String c t
      end
  end.

Definition trim (s : string) : string := trim_end (trim_start s).

(** [s.split(sep)] for a one-character separator: never empty; an input
    without separator comes back whole. *)
Fixpoint split (sep : ascii) (s : string) : list string :=
  match s with
  | EmptyString => [EmptyString]
  | String c s' =>
      if decide (c = sep) then EmptyString :: split sep s'
      else match split sep s' with
           | t :: ts => String c t :: ts
           | [] => [String c EmptyString]
           end
  end.

(** [s.startsWith(p)] and [s.includes(p)]. *)
Fixpoint starts_with (p s : string) : bool :=
  match p, s with
  | EmptyString, _ => true
  | String a p', String b s' => bool_decide (a = b) && starts_with p' s'
  | String _ _, EmptyString => false
  end.

Fixpoint includes (p s : string) : bool :=
  starts_with p s ||
  match s with
  | EmptyString => false
  | String _ s' => includes p s'
  end.

(** [querystring.escape]: the characters [A-Za-z0-9-_.!~*'()] stay, every
    other one becomes the percent-encoded bytes of its UTF-8 form. *)
Definition unreserved (c : ascii) : bool :=
  let n := nat_of_ascii c in
  ((48 <=? n) && (n <=? 57) || (65 <=? n) && (n <=? 90) ||
   (97 <=? n) && (n <=? 122))%nat ||
  bool_decide (c ∈ ["-"; "_"; "."; "!"; "~"; "*"; "'"; "("; ")"]%char).

Definition hex_digit (n : nat) : ascii :=
  ascii_of_nat (if (n <? 10)%nat then 48 + n else 55 + n)%nat.

Definition percent (n : nat) : string :=
  String "%" (String (hex_digit (n / 16)) (String (hex_digit (n mod 16)) EmptyString)).

Fixpoint escape (s : string) : string :=
  match s with
  | EmptyString => EmptyString
  | String c s' =>
      let n := nat_of_ascii c in
      (if unreserved c then String c EmptyString
       else if (n <? 128)%nat then percent n
       else percent (192 + n / 64) +:+ percent (128 + n mod 64))
      +:+ escape s'
  end.

End Js.

(* ===================================================================== *)
(** * Data                                                                *)
(* ===================================================================== *)

(** The environment variables read at the top of sms.js. *)
Record Config := {
  CREDENTIALS_PATH : string;
  TOKEN_PATH : string;
  FOLDER_PATH : string
}.

(** A row of [tb_SMART_INVOICE]. *)
Record InvoiceRow := {
  IDX : Z;
  CUSTOMERID : string;
  MOBILENO : string;
  FILENAME : string;
  PDFDATA : list Byte.byte;
  DOWNLOAD : string
}.

(** A row of [tb_SMS_MAIN]; the two credentials may be NULL. *)
Record SmsProfile := {
  CUSTOMER_ID : string;
  SMARTINVOICE_ACTIVE : string;
  SMS_USERNAME : option string;
  SMS_PASSWORD : option string
}.

(** A row of [tb_SMS_LOG], in the column order of the INSERT. *)
Record SmsLog := {
  log_CUSTOMER_ID : string;
  log_SMS_USER : option string;
  log_SMS_PASSWORD : option string;
  log_PHONE_NUMBER : string;
  log_URL : string
}.

(** A file or folder of the Drive; [parent = None] is the root, and a
    [createdTime] is in milliseconds. *)
Record DriveFile := {
  fileId : string;
  fileName : string;
  mimeType : string;
  parent : option string;
  trashed : bool;
  createdTime : Z;
  webViewLink : string;
  anyone_reader : bool
}.

(** The two searches the program sends to [drive.files.list]. *)
Inductive DriveQuery :=
| QFolderNamed (folderName : string) (currentParentId : option string)
| QPdfIn (folderId : option string).

(** The [installed] member of the client-secret file. *)
Record Installed := {
  client_secret : string;
  client_id : string;
  redirect_uris : list string
}.

(** What [JSON.parse(fs.readFileSync(path))] finds in a file: text that is not
    JSON, the client-secret document with its [installed] member, or an object
    of token fields. *)
Inductive FileContent :=
| FText (s : string)
| FClientSecret (installed : Installed)
| FToken (token : gmap string string).

(** External calls, and entries into [sendSMS], in the order they happen. *)
Inductive Event :=
| EvConnect
| EvSelectPending
| EvUpdateDownload (idx : Z)
| EvSelectProfile (customerID : string)
| EvInsertLog (r : SmsLog)
| EvHttpGet (url : string)
| EvFilesList (q : DriveQuery)
| EvFilesCreate (fileName mime : string) (parentId : option string)
| EvPermissionsCreate (fileId : string)
| EvFilesDelete (fileId : string)
| EvGetAccessToken
| EvQuestion
| EvGetToken (code : string)
| EvWriteFile (path : string) (content : FileContent)
| EvSendSMS (phone customerID link : string).

(** The state of the process and of the services it talks to.  [pool] is the
    module-level variable of config/db.js. *)
Record World := {
  pool : bool;
  tb_SMART_INVOICE : list InvoiceRow;
  tb_SMS_MAIN : list SmsProfile;
  tb_SMS_LOG : list SmsLog;
  drive : list DriveFile;
  fs : gmap string FileContent;
  trace : list Event
}.

(** What the outside world decides.  Each oracle is asked at the index of the
    call, which is the length of the trace when the call is made. *)
Record Env := {
  fault : nat → option string;      (* the message of the error, if the call fails *)
  clock : nat → Z;                  (* [new Date()] and the Drive's clock *)
  fresh_id : nat → string;          (* the id the Drive gives a created file *)
  fresh_link : nat → string;        (* its webViewLink *)
  http_data : nat → string;         (* [response.data] of the SMS gateway *)
  typed_code : nat → string;        (* what the operator pastes *)
  exchanged : nat → gmap string string;  (* the tokens [getToken] answers *)
  refreshed_credentials : nat → option (gmap string string);
                                    (* the credentials the library gives the client
                                       when [getAccessToken] refreshes them *)
  localTZA : Z → bool → Z           (* the offset of local time from UTC in
                                       milliseconds: at a UTC instant ([true]) and
                                       at a local time ([false]) *)
}.

Definition set_pool (b : bool) (w : World) : World :=
  {| pool := b; tb_SMART_INVOICE := tb_SMART_INVOICE w; tb_SMS_MAIN := tb_SMS_MAIN w;
     tb_SMS_LOG := tb_SMS_LOG w; drive := drive w; fs := fs w; trace := trace w |}.

Definition set_invoices (f : list InvoiceRow → list InvoiceRow) (w : World) : World :=
  {| pool := pool w; tb_SMART_INVOICE := f (tb_SMART_INVOICE w); tb_SMS_MAIN := tb_SMS_MAIN w;
     tb_SMS_LOG := tb_SMS_LOG w; drive := drive w; fs := fs w; trace := trace w |}.

Definition set_sms_log (f : list SmsLog → list SmsLog) (w : World) : World :=
  {| pool := pool w; tb_SMART_INVOICE := tb_SMART_INVOICE w; tb_SMS_MAIN := tb_SMS_MAIN w;
     tb_SMS_LOG := f (tb_SMS_LOG w); drive := drive w; fs := fs w; trace := trace w |}.

Definition set_drive (f : list DriveFile → list DriveFile) (w : World) : World :=
  {| pool := pool w; tb_SMART_INVOICE := tb_SMART_INVOICE w; tb_SMS_MAIN := tb_SMS_MAIN w;
     tb_SMS_LOG := tb_SMS_LOG w; drive := f (drive w); fs := fs w; trace := trace w |}.

Definition set_fs (f : gmap string FileContent → gmap string FileContent) (w : World) : World :=
  {| pool := pool w; tb_SMART_INVOICE := tb_SMART_INVOICE w; tb_SMS_MAIN := tb_SMS_MAIN w;
     tb_SMS_LOG := tb_SMS_LOG w; drive := drive w; fs := f (fs w); trace := trace w |}.

Definition log_event (e : Event) (w : World) : World :=
  {| pool := pool w; tb_SMART_INVOICE := tb_SMART_INVOICE w; tb_SMS_MAIN := tb_SMS_MAIN w;
     tb_SMS_LOG := tb_SMS_LOG w; drive := drive w; fs := fs w; trace := trace w ++ [e] |}.

(* ===================================================================== *)
(** * The monad: state, thrown errors and [process.exit]                  *)
(* ===================================================================== *)

(** An awaited computation ends by returning, by throwing an [Error] (kept as
    its message) or by [process.exit(code)], which no [catch] sees. *)
Inductive Outcome (A : Type) : Type :=
| Ok (a : A) (w : World)
| Throw (message : string) (w : World)
| Exit (code : Z) (w : World).
Arguments Ok {A} a w.
Arguments Throw {A} message w.
Arguments Exit {A} code w.

Definition M (A : Type) : Type := World → Outcome A.

Definition world_of {A} (o : Outcome A) : World :=
  match o with Ok _ w | Throw _ w | Exit _ w => w end.

#[global] Instance M_ret : MRet M := λ A a w, Ok a w.

#[global] Instance M_bind : MBind M := λ A B f m w,
  match m w with
  | Ok a w' => f a w'
  | Throw e w' => Throw e w'
  | Exit c w' => Exit c w'
  end.

Definition throw {A} (message : string) : M A := λ w, Throw message w.

Definition process_exit {A} (code : Z) : M A := λ w, Exit code w.

(** [try { m } catch (err) { h err }] *)
Definition try_catch {A} (m : M A) (h : string → M A) : M A := λ w,
  match m w with
  | Throw e w' => h e w'
  | o => o
  end.

Definition get_world : M World := λ w, Ok w w.

Definition modify (f : World → World) : M unit := λ w, Ok tt (f w).

(** [for (const x of xs) { body x }] *)
Fixpoint for_of {A} (xs : list A) (body : A → M unit) : M unit :=
  match xs with
  | [] => mret tt
  | x :: xs' => body x ;; for_of xs' body
  end.

(* ===================================================================== *)
(** * The program                                                         *)
(* ===================================================================== *)

Section Program.

Variable cfg : Config.
Variable env : Env.

(** ** External calls *)

(** One awaited call on a service: it is recorded, then it either succeeds or
    throws the error the environment decides. *)
Definition extcall (e : Event) : M nat := λ w,
  let n := length (trace w) in
  match fault env n with
  | Some message => Throw message (log_event e w)
  | None => Ok n (log_event e w)
  end.

(** [mssql.connect(dbConfig)] *)
Definition mssql_connect : M unit :=
  extcall EvConnect ;; modify (set_pool true).

(** [SELECT * FROM tb_SMART_INVOICE WHERE DOWNLOAD = 'F'] *)
Definition select_pending : M (list InvoiceRow) :=
  extcall EvSelectPending ;;
  w ← get_world ;
  mret (filter (λ r, DOWNLOAD r = "F") (tb_SMART_INVOICE w)).

Definition mark_downloaded (idx : Z) (r : InvoiceRow) : InvoiceRow :=
  if decide (IDX r = idx)
  then {| IDX := IDX r; CUSTOMERID := CUSTOMERID r; MOBILENO := MOBILENO r;
          FILENAME := FILENAME r; PDFDATA := PDFDATA r; DOWNLOAD := "T" |}
  else r.

(** [UPDATE tb_SMART_INVOICE SET DOWNLOAD = 'T' WHERE IDX = @idx] *)
Definition update_download (idx : Z) : M unit :=
  extcall (EvUpdateDownload idx) ;;
  modify (set_invoices (fmap (mark_downloaded idx))).

(** [SELECT * FROM tb_SMS_MAIN WHERE CUSTOMER_ID = @customerID] *)
Definition select_profile (customerID : string) : M (list SmsProfile) :=
  extcall (EvSelectProfile customerID) ;;
  w ← get_world ;
  mret (filter (λ r, CUSTOMER_ID r = customerID) (tb_SMS_MAIN w)).

(** [INSERT INTO tb_SMS_LOG (...) VALUES (...)] *)
Definition insert_log (r : SmsLog) : M unit :=
  extcall (EvInsertLog r) ;;
  modify (set_sms_log (λ l, l ++ [r])).

(** [axios.get(url)], answering [response.data]. *)
Definition axios_get (url : string) : M string :=
  n ← extcall (EvHttpGet url) ;
  mret (http_data env n).

Definition folder_mime : string := "application/vnd.google-apps.folder".
Definition pdf_mime : string := "application/pdf".

Definition in_parent (p : option string) (f : DriveFile) : bool :=
  bool_decide (parent f = p).

(** The files a search matches.  A search for a folder from the root
    ([currentParentId] null) has no [in parents] clause.  The search of the
    sweep always has one, made of [folderId] by a template literal, in which
    a null [folderId] reads [null]: the id of a folder named so, not the
    root. *)
Definition matches (q : DriveQuery) (f : DriveFile) : bool :=
  match q with
  | QFolderNamed folderName currentParentId =>
      bool_decide (fileName f = folderName) && bool_decide (mimeType f = folder_mime) &&
      negb (trashed f) &&
      match currentParentId with
      | Some _ => in_parent currentParentId f
      | None => true
      end
  | QPdfIn folderId =>
      in_parent (Some (default "null" folderId)) f &&
      bool_decide (mimeType f = pdf_mime) && negb (trashed f)
  end.

(** [orderBy: "createdTime desc"] *)
Definition not_older (a b : DriveFile) : Prop := createdTime b ≤ createdTime a.

#[global] Instance not_older_dec : RelDecision not_older.
Proof. intros a b. unfold not_older. apply _. Defined.

Definition newest_first (l : list DriveFile) : list DriveFile :=
  merge_sort not_older l.

(** The size of a page of [drive.files.list] when the request sets no
    [pageSize], as both requests of the program do. *)
Definition pageSize : nat := 100.

(** [drive.files.list({q, ...})], answering [res.data.files]: the first page
    of the matching files, in the order asked for.  The program reads this
    one answer and never asks for the next page. *)
Definition files_list (q : DriveQuery) : M (list DriveFile) :=
  extcall (EvFilesList q) ;;
  w ← get_world ;
  let found := filter (λ f, matches q f = true) (drive w) in
  mret (take pageSize
          (match q with QPdfIn _ => newest_first found | QFolderNamed _ _ => found end)).

(** [drive.files.create({resource: {name, parents, mimeType}, ...})] *)
Definition files_create (fileName mime : string) (parentId : option string) : M DriveFile :=
  n ← extcall (EvFilesCreate fileName mime parentId) ;
  let f := {| fileId := fresh_id env n; fileName := fileName; mimeType := mime;
              parent := parentId; trashed := false; createdTime := clock env n;
              webViewLink := fresh_link env n; anyone_reader := false |} in
  modify (set_drive (λ l, l ++ [f])) ;;
  mret f.

Definition share (i : string) (f : DriveFile) : DriveFile :=
  if decide (fileId f = i)
  then {| fileId := fileId f; fileName := fileName f; mimeType := mimeType f;
          parent := parent f; trashed := trashed f; createdTime := createdTime f;
          webViewLink := webViewLink f; anyone_reader := true |}
  else f.

(** [drive.permissions.create({fileId, requestBody: {role: "reader", type: "anyone"}})] *)
Definition permissions_create (i : string) : M unit :=
  extcall (EvPermissionsCreate i) ;;
  modify (set_drive (fmap (share i))).

(** [drive.files.delete({fileId})] *)
Definition files_delete (i : string) : M unit :=
  extcall (EvFilesDelete i) ;;
  modify (set_drive (filter (λ f, fileId f ≠ i))).

(** [fs.writeFileSync(path, JSON.stringify(content, null, 2))] *)
Definition write_file (path : string) (content : FileContent) : M unit :=
  extcall (EvWriteFile path content) ;;
  modify (set_fs (insert path content)).

(** ** config/db.js *)

(** [connectToDatabase]: the pool is made once and kept; a failed connection
    ends the process. *)
Definition connectToDatabase : M unit :=
  try_catch
    (w ← get_world ;
     if pool w then mret tt else mssql_connect)
    (λ err, process_exit 1).

(** ** sms.js: authorize *)

(** The OAuth2 client: what it was built from, its credentials, and the
    listeners registered with [on("tokens", ...)]. *)
Record OAuth2Client := {
  oauth_client_id : string;
  oauth_client_secret : string;
  oauth_redirect_uri : option string;
  credentials : gmap string string;
  tokens_listeners : list (gmap string string → M unit)
}.

(** [new google.auth.OAuth2(client_id, client_secret, redirect_uri)] *)
Definition new_OAuth2 (client_id client_secret : string) (redirect_uri : option string)
  : OAuth2Client :=
  {| oauth_client_id := client_id; oauth_client_secret := client_secret;
     oauth_redirect_uri := redirect_uri; credentials := ∅; tokens_listeners := [] |}.

Definition setCredentials (t : gmap string string) (c : OAuth2Client) : OAuth2Client :=
  {| oauth_client_id := oauth_client_id c; oauth_client_secret := oauth_client_secret c;
     oauth_redirect_uri := oauth_redirect_uri c; credentials := t;
     tokens_listeners := tokens_listeners c |}.

Definition on_tokens (l : gmap string string → M unit) (c : OAuth2Client) : OAuth2Client :=
  {| oauth_client_id := oauth_client_id c; oauth_client_secret := oauth_client_secret c;
     oauth_redirect_uri := oauth_redirect_uri c; credentials := credentials c;
     tokens_listeners := tokens_listeners c ++ [l] |}.

(** The client emits ["tokens"]: every listener runs. *)
Definition emit_tokens (c : OAuth2Client) (tokens : gmap string string) : M unit :=
  for_of (tokens_listeners c) (λ l, l tokens).

(** [!obj.refresh_token]: the member is missing or empty. *)
Definition no_refresh_token (t : gmap string string) : bool :=
  match t !! "refresh_token" with
  | Some v => bool_decide (v = "")
  | None => true
  end.

(** [JSON.parse(fs.readFileSync(CREDENTIALS_PATH))] and the destructuring of
    [credentials.installed]. *)
Definition read_installed : M Installed :=
  w ← get_world ;
  match fs w !! CREDENTIALS_PATH cfg with
  | Some (FClientSecret i) => mret i
  | Some (FText _) => throw "Unexpected token in JSON"
  | Some (FToken _) => throw "Cannot destructure property of credentials.installed"
  | None => throw "ENOENT: no such file or directory"
  end.

(** [JSON.parse(fs.readFileSync(TOKEN_PATH))] and the test of its
    [refresh_token]. *)
Definition read_token : M (gmap string string) :=
  w ← get_world ;
  match fs w !! TOKEN_PATH cfg with
  | Some (FToken t) => if no_refresh_token t then throw "Missing refresh_token" else mret t
  | Some (FClientSecret _) => throw "Missing refresh_token"
  | Some (FText _) => throw "Unexpected token in JSON"
  | None => throw "ENOENT: no such file or directory"
  end.

(** The listener of the branch that found a token file (lines 62-70).  What
    it spreads first is [token], the object parsed at line 36, taken with the
    members it was read with. *)
Definition listener_loaded (token : gmap string string) (tokens : gmap string string) : M unit :=
  try_catch
    (let updatedToken := tokens ∪ token in
     write_file (TOKEN_PATH cfg) (FToken updatedToken))
    (λ writeErr, mret tt).

(** The listener registered after the manual authentication (lines 112-120). *)
Definition listener_manual (tokens : gmap string string) : M unit :=
  try_catch
    (let updatedToken := tokens in
     write_file (TOKEN_PATH cfg) (FToken updatedToken))
    (λ writeErr, mret tt).

(** [oAuth2Client.getAccessToken()]: when the access token is missing or
    about to expire the library asks for a new one, gives the client the
    credentials it made of the answer and emits ["tokens"]; otherwise the
    client stays as it is.  (At line 46 no listener is registered yet: the
    event of this refresh is heard by nobody.) *)
Definition getAccessToken (oAuth2Client : OAuth2Client) : M OAuth2Client :=
  n ← extcall EvGetAccessToken ;
  mret (match refreshed_credentials env n with
        | Some tokens => setCredentials tokens oAuth2Client
        | None => oAuth2Client
        end).

(** Lines 33-77: the branch taken when the token file exists.  [Some] client
    is the [return] of line 72; [None] is the end of the [catch] of line 73,
    from which the function goes on to the manual authentication.  (When the
    error comes after [setCredentials(token)] the client keeps those
    credentials until the manual authentication sets its own; nothing reads
    them in between.) *)
Definition use_token_file (oAuth2Client : OAuth2Client) : M (option OAuth2Client) :=
  try_catch
    (token ← read_token ;
     let oAuth2Client := setCredentials token oAuth2Client in
     oAuth2Client ←
       try_catch
         (getAccessToken oAuth2Client)
         (λ refreshErr,
            if Js.includes "invalid_grant" refreshErr
            then throw "Invalid refresh_token. Please re-authenticate manually."
            else throw refreshErr) ;
     mret (Some (on_tokens (listener_loaded token) oAuth2Client)))
    (λ tokenErr, mret None).

(** Lines 79-122: the manual authentication. *)
Definition manual_authentication (oAuth2Client : OAuth2Client) : M OAuth2Client :=
  w ← get_world ;
  let code := typed_code env (length (trace w)) in
  modify (log_event EvQuestion) ;;
  n ← extcall (EvGetToken code) ;
  let tokens := exchanged env n in
  if no_refresh_token tokens
  then throw "No refresh_token received. Ensure 'access_type=offline' and 'prompt=consent' in auth URL."
  else
    let oAuth2Client := setCredentials tokens oAuth2Client in
    write_file (TOKEN_PATH cfg) (FToken tokens) ;;
    mret (on_tokens listener_manual oAuth2Client).

Definition authorize : M OAuth2Client :=
  try_catch
    (w ← get_world ;
     (if bool_decide (is_Some (fs w !! CREDENTIALS_PATH cfg)) then mret tt
      else throw ("Credentials file not found at " +:+ CREDENTIALS_PATH cfg +:+
                  ". Please download from Google Cloud Console.")) ;;
     installed ← read_installed ;
     let oAuth2Client :=
       new_OAuth2 (client_id installed) (client_secret installed)
         (head (redirect_uris installed)) in
     w ← get_world ;
     found ← (if bool_decide (is_Some (fs w !! TOKEN_PATH cfg))
              then use_token_file oAuth2Client else mret None) ;
     match found with
     | Some client => mret client
     | None => manual_authentication oAuth2Client
     end)
    (λ err, throw err).

(** ** sms.js: getOrCreateFolder *)

(** The loop of lines 137-164, with [currentParentId] as its variable. *)
Fixpoint resolve_folders (folderNames : list string) (currentParentId : option string)
  : M (option string) :=
  match folderNames with
  | [] => mret currentParentId
  | folderName :: rest =>
      files ← files_list (QFolderNamed folderName currentParentId) ;
      folderId ← match files with
                 | f :: _ => mret (fileId f)
                 | [] => folder ← files_create folderName folder_mime currentParentId ;
                         mret (fileId folder)
                 end ;
      resolve_folders rest (Some folderId)
  end.

Definition getOrCreateFolder (auth : OAuth2Client) (folderPath : string) : M (option string) :=
  try_catch
    (let folderNames := filter (λ name, Js.trim name ≠ "") (Js.split "/" folderPath) in
     resolve_folders folderNames None)
    (λ err, throw err).

(** ** sms.js: uploadToDrive *)

(** With a null [folderId] the request names no folder among the parents:
    the file is taken to land in the root. *)
Definition uploadToDrive (auth : OAuth2Client) (pdfBuffer : list Byte.byte)
    (fileName : string) (folderId : option string) : M string :=
  try_catch
    (file ← files_create fileName pdf_mime folderId ;
     permissions_create (fileId file) ;;
     mret (webViewLink file))
    (λ err, throw err).

(** ** sms.js: sendSMS *)

(** A value that may be [undefined], inside a template literal. *)
Definition template (v : option string) : string := default "undefined" v.

Definition sendSMS (phone customerID link : string) : M unit :=
  modify (log_event (EvSendSMS phone customerID link)) ;;
  try_catch
    (connectToDatabase ;;
     recordset ← select_profile customerID ;
     match recordset with
     | [] => mret tt
     | r0 :: _ =>
         if decide (SMARTINVOICE_ACTIVE r0 = "T") then
           let smsUser := Js.trim <$> SMS_USERNAME r0 in
           let smsPassword := Js.trim <$> SMS_PASSWORD r0 in
           let text := "Dear customer, your bill is available at: " +:+ link in
           let encodedText := Js.escape text in
           let url := "https://textit.biz/sendmsg/?id=" +:+ template smsUser +:+
                      "&pw=" +:+ template smsPassword +:+
                      "&to=" +:+ phone +:+ "&text=" +:+ encodedText in
           data ← axios_get url ;
           let responseText := Js.trim data in
           let res := Js.split ":" responseText in
           if decide (Js.trim (default "" (head res)) = "OK") then
             insert_log {| log_CUSTOMER_ID := customerID; log_SMS_USER := smsUser;
                           log_SMS_PASSWORD := smsPassword; log_PHONE_NUMBER := phone;
                           log_URL := link |}
           else mret tt
         else mret tt
     end)
    (λ err, mret tt).

(** ** sms.js: deleteOldFiles *)

Definition day_ms : Z := 24 * 60 * 60 * 1000.

(** [const oneWeekAgo = new Date(currentDate);
    oneWeekAgo.setDate(currentDate.getDate() - 7)]: [setDate] takes the local
    time of the instant, goes seven days back on the local calendar keeping
    the time of day, and reads the result as a local time.  Where the offset
    of local time is the same at both ends this is seven times 24 hours
    back. *)
Definition oneWeekAgo (currentDate : Z) : Z :=
  let t := currentDate + localTZA env currentDate true in
  let newDate := t - 7 * day_ms in
  newDate - localTZA env newDate false.

(** The body of the loop over the listed files (lines 287-298). *)
Definition delete_if_old (oneWeekAgo : Z) (file : DriveFile) : M unit :=
  let fileCreatedTime := createdTime file in
  if bool_decide (fileCreatedTime < oneWeekAgo)
  then files_delete (fileId file)
  else mret tt.

Definition deleteOldFiles (auth : OAuth2Client) (folderId : option string) : M unit :=
  try_catch
    (w ← get_world ;
     let currentDate := clock env (length (trace w)) in
     files ← files_list (QPdfIn folderId) ;
     for_of files (delete_if_old (oneWeekAgo currentDate)))
    (λ err, mret tt).

(** ** sms.js: the main poller *)

(** [/^94\d{9}$/.test(rawPhone)] and [/^0\d{9}$/.test(rawPhone)] *)
Definition test_94_9digits (rawPhone : string) : bool :=
  Js.starts_with "94" rawPhone &&
  bool_decide (String.length (Js.slice 2 rawPhone) = 9%nat) &&
  Js.all_digits (Js.slice 2 rawPhone).

Definition test_0_9digits (rawPhone : string) : bool :=
  Js.starts_with "0" rawPhone &&
  bool_decide (String.length (Js.slice 1 rawPhone) = 9%nat) &&
  Js.all_digits (Js.slice 1 rawPhone).

(** Lines 333-341: the value of [customerPhone], or [None] where the loop
    goes to the next row. *)
Definition customerPhone_of (rawPhone : string) : option string :=
  if test_94_9digits rawPhone then Some ("0" +:+ Js.slice 2 rawPhone)
  else if test_0_9digits rawPhone then Some rawPhone
  else None.

(** The body of the loop over the rows (lines 328-365). *)
Definition poll_row (auth : OAuth2Client) (folderId : option string) (row : InvoiceRow)
  : M unit :=
  try_catch
    (let customerID := CUSTOMERID row in
     let rawPhone := MOBILENO row in
     match customerPhone_of rawPhone with
     | None => mret tt
     | Some customerPhone =>
         let fileName := FILENAME row in
         let pdfBuffer := PDFDATA row in
         link ← uploadToDrive auth pdfBuffer fileName folderId ;
         update_download (IDX row) ;;
         sendSMS customerPhone customerID link
     end)
    (λ rowErr, mret tt).

Definition poll_rows (auth : OAuth2Client) (folderId : option string)
    (recordset : list InvoiceRow) : M unit :=
  for_of recordset (poll_row auth folderId).

(** The callback of the ten-second timer (lines 319-370). *)
Definition poll_tick (auth : OAuth2Client) (folderId : option string) : M unit :=
  try_catch
    (connectToDatabase ;;
     recordset ← select_pending ;
     poll_rows auth folderId recordset)
    (λ pollErr, mret tt).

(** Lines 306-311 and their [catch] (lines 371-374). *)
Definition startup : M (OAuth2Client * option string) :=
  try_catch
    (auth ← authorize ;
     folderId ← getOrCreateFolder auth (FOLDER_PATH cfg) ;
     mret (auth, folderId))
    (λ err, process_exit 1).

(** What the event loop runs once the two timers are set: a tick, a sweep,
    or the listeners of a ["tokens"] event.  The client emits that event when
    the library refreshes the access token, which it does on the way of a
    Drive request; the listeners are run here as a callback of their own,
    before or after the tick or the sweep whose request it was. *)
Inductive Callback :=
| PollTimer
| SweepTimer
| TokensEvent (tokens : gmap string string).

Definition run_callback (auth : OAuth2Client) (folderId : option string) (c : Callback)
  : M unit :=
  match c with
  | PollTimer => poll_tick auth folderId
  | SweepTimer => deleteOldFiles auth folderId
  | TokensEvent tokens => emit_tokens auth tokens
  end.

(** The process: the start, then the callbacks in the order they fire, one
    after the other. *)
Definition main (schedule : list Callback) : M unit :=
  started ← startup ;
  for_of schedule (run_callback started.1 started.2).

End Program.

(* ===================================================================== *)
(** * Shapes and observations used by the statements                      *)
(* ===================================================================== *)

(** Nine digits, and the local form of a phone number: a zero and nine
    digits. *)
Definition nine_digits (rest : string) : Prop :=
  String.length rest = 9%nat ∧ Js.all_digits rest = true.

Definition local_form (phone : string) : Prop :=
  ∃ rest, phone = "0" +:+ rest ∧ nine_digits rest.

(** The events a computation adds to the trace of [w]. *)
Definition new_events {A} (m : M A) (w : World) : list Event :=
  drop (length (trace w)) (trace (world_of (m w))).

(** Every row of [tb_SMART_INVOICE] with this identifier has [DOWNLOAD = 'T']. *)
Definition uploaded (idx : Z) (w : World) : Prop :=
  ∀ r, r ∈ tb_SMART_INVOICE w → IDX r = idx → DOWNLOAD r = "T".

(** The rows a tick would fetch. *)
Definition pending (w : World) : list InvoiceRow :=
  filter (λ r, DOWNLOAD r = "F") (tb_SMART_INVOICE w).

(** The customer has no row in [tb_SMS_MAIN], or the first one found does not
    have [SMARTINVOICE_ACTIVE = 'T']. *)
Definition suppressed (customerID : string) (w : World) : Prop :=
  match filter (λ r, CUSTOMER_ID r = customerID) (tb_SMS_MAIN w) with
  | [] => True
  | r0 :: _ => SMARTINVOICE_ACTIVE r0 ≠ "T"
  end.

(** A property of the world that every step of the program keeps: the steps
    are the events that satisfy [good] and the state changes the program
    makes. *)
Record Invariant (good : Event → Prop) (P : World → Prop) : Prop := {
  inv_event : ∀ e w, good e → P w → P (log_event e w);
  inv_pool : ∀ w, P w → P (set_pool true w);
  inv_invoices : ∀ idx w, P w → P (set_invoices (fmap (mark_downloaded idx)) w);
  inv_sms_log : ∀ f w, P w → P (set_sms_log f w);
  inv_drive : ∀ f w, P w → P (set_drive f w);
  inv_fs : ∀ f w, P w → P (set_fs f w)
}.

(** [m] keeps [P], however it ends. *)
Definition preserves {A} (P : World → Prop) (m : M A) : Prop :=
  ∀ w, P w → P (world_of (m w)).

(** The calls [sendSMS] makes once the pool exists. *)
Definition notify_event (e : Event) : Prop :=
  match e with
  | EvSelectProfile _ | EvHttpGet _ | EvInsertLog _ => True
  | _ => False
  end.

(** The phone in an [EvSendSMS] is in local form. *)
Definition local_phone_event (e : Event) : Prop :=
  match e with
  | EvSendSMS phone _ _ => local_form phone
  | _ => True
  end.

(** The file [uploadToDrive] creates for a row when the call of index [n]
    succeeds. *)
Definition uploaded_file (env : Env) (folderId : option string) (row : InvoiceRow)
    (n : nat) : DriveFile :=
  {| fileId := fresh_id env n; fileName := FILENAME row; mimeType := pdf_mime;
     parent := folderId; trashed := false; createdTime := clock env n;
     webViewLink := fresh_link env n; anyone_reader := false |}.

(** The world after a successful [uploadToDrive] for a row: the file is
    created and shared. *)
Definition shared (env : Env) (folderId : option string) (row : InvoiceRow)
    (w : World) : World :=
  let f := uploaded_file env folderId row (length (trace w)) in
  set_drive (fmap (share (fileId f)))
    (log_event (EvPermissionsCreate (fileId f))
      (set_drive (λ l, l ++ [f])
        (log_event (EvFilesCreate (FILENAME row) pdf_mime folderId) w))).

(** The world in which [sendSMS] is entered for a row: after the upload, the
    UPDATE of the row has been done. *)
Definition marked (env : Env) (folderId : option string) (row : InvoiceRow)
    (w : World) : World :=
  set_invoices (fmap (mark_downloaded (IDX row)))
    (log_event (EvUpdateDownload (IDX row)) (shared env folderId row w)).

(** The calls that reach the SMS gateway or write the log. *)
Definition gateway_or_log_event (e : Event) : Prop :=
  match e with
  | EvHttpGet _ | EvInsertLog _ => True
  | _ => False
  end.

(** [k] more ticks of the ten-second timer. *)
Definition poll_ticks (env : Env) (auth : OAuth2Client) (folderId : option string)
    (k : nat) : M unit :=
  for_of (replicate k tt) (λ _, poll_tick env auth folderId).

(** The first token of the gateway answer, as [sendSMS] compares it. *)
Definition status_token (data : string) : string :=
  Js.trim (default "" (head (Js.split ":" (Js.trim data)))).

(** The URL [sendSMS] requests for an active profile. *)
Definition gateway_url (r0 : SmsProfile) (phone link : string) : string :=
  "https://textit.biz/sendmsg/?id=" +:+ template (Js.trim <$> SMS_USERNAME r0) +:+
  "&pw=" +:+ template (Js.trim <$> SMS_PASSWORD r0) +:+
  "&to=" +:+ phone +:+ "&text=" +:+
  Js.escape ("Dear customer, your bill is available at: " +:+ link).

(** The row [sendSMS] inserts into [tb_SMS_LOG]. *)
Definition log_record (r0 : SmsProfile) (phone customerID link : string) : SmsLog :=
  {| log_CUSTOMER_ID := customerID; log_SMS_USER := Js.trim <$> SMS_USERNAME r0;
     log_SMS_PASSWORD := Js.trim <$> SMS_PASSWORD r0; log_PHONE_NUMBER := phone;
     log_URL := link |}.

(** [m] never ends the process. *)
Definition no_exit {A} (m : M A) : Prop := ∀ w c w', m w ≠ Exit c w'.

(** [m] returns normally: it neither throws nor ends the process. *)
Definition returns {A} (m : M A) : Prop := ∀ w, ∃ a w', m w = Ok a w'.

(** How a computation ended. *)
Definition is_ok {A} (o : Outcome A) : bool :=
  match o with Ok _ _ => true | _ => false end.

Definition exit_code {A} (o : Outcome A) : option Z :=
  match o with Exit code _ => Some code | _ => None end.

(** A run ends well when it returns or ends the process with code 1. *)
Definition returns_or_exits_1 {A} (o : Outcome A) : Prop :=
  match o with
  | Ok _ _ => True
  | Throw _ _ => False
  | Exit code _ => code = 1
  end.

(** The documents a sweep is meant to delete: the PDF files, not trashed,
    directly in the folder, created before the threshold. *)
Definition doomed (folderId : option string) (threshold : Z) (f : DriveFile) : Prop :=
  matches (QPdfIn folderId) f = true ∧ createdTime f < threshold.

#[global] Instance doomed_dec folderId threshold f : Decision (doomed folderId threshold f).
Proof. unfold doomed. apply _. Defined.

(** The deletions a sweep has to make, in the order of the listing. *)
Definition planned_deletions (threshold : Z) (files : list DriveFile) : list Event :=
  (λ f, EvFilesDelete (fileId f)) <$> filter (λ f, createdTime f < threshold) files.

(** [k] more sweeps of the daily timer. *)
Definition sweeps (env : Env) (auth : OAuth2Client) (folderId : option string)
    (k : nat) : M unit :=
  for_of (replicate k tt) (λ _, deleteOldFiles env auth folderId).

(** The files a sweep lists: the first page of the documents of the folder,
    newest first. *)
Definition sweep_listing (folderId : option string) (w : World) : list DriveFile :=
  take pageSize
    (newest_first (filter (λ f, matches (QPdfIn folderId) f = true) (drive w))).

(** The calls [sendSMS] can make, in order. *)
Definition notify_calls (r0 : SmsProfile) (phone customerID link : string) : list Event :=
  [EvSendSMS phone customerID link; EvSelectProfile customerID;
   EvHttpGet (gateway_url r0 phone link);
   EvInsertLog (log_record r0 phone customerID link)].

(** The calls the loop body can make for a row with a valid phone, in order. *)
Definition row_calls (folderId : option string) (row : InvoiceRow)
    (phone fileid link : string) (r0 : SmsProfile) : list Event :=
  [EvFilesCreate (FILENAME row) pdf_mime folderId; EvPermissionsCreate fileid;
   EvUpdateDownload (IDX row)] ++ notify_calls r0 phone (CUSTOMERID row) link.

(** What one row adds to the trace: nothing for an invalid phone, otherwise a
    non-empty prefix of its calls. *)
Definition row_segment (folderId : option string) (row : InvoiceRow)
    (seg : list Event) : Prop :=
  match customerPhone_of (MOBILENO row) with
  | None => seg = []
  | Some phone =>
      ∃ k fileid link r0,
        (0 < k)%nat ∧ seg = take k (row_calls folderId row phone fileid link r0)
  end.

(** A profile that stands for none, where the statement needs one. *)
Definition no_profile : SmsProfile :=
  {| CUSTOMER_ID := ""; SMARTINVOICE_ACTIVE := ""; SMS_USERNAME := None;
     SMS_PASSWORD := None |}.

(** The file of a row is what it should be: a PDF of the folder with the
    row's file name. *)
Definition document_of (folderId : option string) (fileName' : string) (f : DriveFile)
  : Prop :=
  fileName f = fileName' ∧ parent f = folderId ∧ mimeType f = pdf_mime ∧
  trashed f = false.

(** A row after a tick: as it was, or as it was with [DOWNLOAD] set to ['T']. *)
Definition same_or_marked (r r' : InvoiceRow) : Prop :=
  r' = r ∨ r' = mark_downloaded (IDX r) r.

(** The segments of a folder path: the parts between the slashes that are not
    blank. *)
Definition folder_names (folderPath : string) : list string :=
  filter (λ name, Js.trim name ≠ "") (Js.split "/" folderPath).

(** The folder [getOrCreateFolder] creates for a segment when the call of
    index [n] succeeds. *)
Definition created_folder (env : Env) (folderName : string) (currentParentId : option string)
    (n : nat) : DriveFile :=
  {| fileId := fresh_id env n; fileName := folderName; mimeType := folder_mime;
     parent := currentParentId; trashed := false; createdTime := clock env n;
     webViewLink := fresh_link env n; anyone_reader := false |}.

(** A live folder with this name. *)
Definition folder_named (folderName : string) (f : DriveFile) : Prop :=
  fileName f = folderName ∧ mimeType f = folder_mime ∧ trashed f = false.

(** The folders the listing of [getOrCreateFolder] answers for a segment. *)
Definition found_folders (folderName : string) (currentParentId : option string)
    (w : World) : list DriveFile :=
  take pageSize
    (filter (λ f, matches (QFolderNamed folderName currentParentId) f = true) (drive w)).

(** A listing of the Drive. *)
Definition is_list_call (e : Event) : Prop :=
  match e with EvFilesList _ => True | _ => False end.

(** The token file is usable: a JSON object with a refresh token. *)
Definition usable_token_file (cfg : Config) (w : World) : Prop :=
  ∃ token,
    fs w !! TOKEN_PATH cfg = Some (FToken token) ∧ no_refresh_token token = false.

(** The client [authorize] builds from the credentials file. *)
Definition client_of (installed : Installed) : OAuth2Client :=
  new_OAuth2 (client_id installed) (client_secret installed)
    (head (redirect_uris installed)).

(** A string of white space only. *)
Fixpoint all_white (s : string) : bool :=
  match s with
  | EmptyString => true
  | String c s' => Js.is_white c && all_white s'
  end.

(** The characters [querystring.escape] leaves in its result: the unreserved
    ones and the percent sign. *)
Definition url_safe (c : ascii) : bool := Js.unreserved c || bool_decide (c = "%"%char).

Fixpoint all_url_safe (s : string) : bool :=
  match s with
  | EmptyString => true
  | String c s' => url_safe c && all_url_safe s'
  end.

(** The request of [sendSMS] up to the text of the message. *)
Definition gateway_url_head (r0 : SmsProfile) (phone : string) : string :=
  "https://textit.biz/sendmsg/?id=" +:+ template (Js.trim <$> SMS_USERNAME r0) +:+
  "&pw=" +:+ template (Js.trim <$> SMS_PASSWORD r0) +:+
  "&to=" +:+ phone +:+ "&text=".

(** A file of the Drive later on: as it was, or as it was and readable by
    anyone. *)
Definition same_or_shared (f f' : DriveFile) : Prop :=
  f' = f ∨ f' = share (fileId f) f.

(** [new] holds every file of [old], in the same order and at most made
    public, and after them the files added since. *)
Definition grown_from (old new : list DriveFile) : Prop :=
  ∃ kept added, new = kept ++ added ∧ Forall2 same_or_shared old kept.

(** The log holds the rows of [old] and, after them, rows with a phone number
    in local form. *)
Definition log_extends (old new : list SmsLog) : Prop :=
  ∃ added, new = old ++ added ∧ Forall (λ r, local_form (log_PHONE_NUMBER r)) added.

(** The pool and the three tables are the same. *)
Definition same_database (w w' : World) : Prop :=
  pool w' = pool w ∧ tb_SMART_INVOICE w' = tb_SMART_INVOICE w ∧
  tb_SMS_MAIN w' = tb_SMS_MAIN w ∧ tb_SMS_LOG w' = tb_SMS_LOG w.

(* ===================================================================== *)
(** * Concrete inputs                                                     *)
(* ===================================================================== *)

Definition cfg0 : Config :=
  {| CREDENTIALS_PATH := "credentials.json"; TOKEN_PATH := "token.json";
     FOLDER_PATH := "SmartInvoices" |}.

Definition installed0 : Installed :=
  {| client_secret := "secret"; client_id := "client";
     redirect_uris := ["http://localhost"] |}.

(** A client without listeners. *)
Definition auth0 : OAuth2Client :=
  {| oauth_client_id := "client"; oauth_client_secret := "secret";
     oauth_redirect_uri := Some "http://localhost"; credentials := ∅;
     tokens_listeners := [] |}.

Definition folder0 : option string := Some "folder".

(** An environment in which the calls listed in [failing] fail with
    [message], the gateway answers [data] and the token exchange answers
    [tokens].  The access token read from the token file is still good, and
    local time is five and a half hours ahead of UTC all year. *)
Definition env_with (failing : list nat) (message data : string)
    (tokens : gmap string string) : Env :=
  {| fault := λ n, if bool_decide (n ∈ failing) then Some message else None;
     clock := λ _, 1000 * day_ms;
     fresh_id := λ n, "file" +:+ pretty n;
     fresh_link := λ n, "https://drive.google.com/file/d/file" +:+ pretty n +:+ "/view";
     http_data := λ _, data;
     typed_code := λ _, "4/code";
     exchanged := λ _, tokens;
     refreshed_credentials := λ _, None;
     localTZA := λ _ _, 19800000 |}.

Definition tokens0 : gmap string string :=
  {[ "access_token" := "a0"; "refresh_token" := "r0" ]}.

(** The environment in which nothing fails and the gateway accepts. *)
Definition env_ok : Env := env_with [] "" "OK:12345" tokens0.

Definition row1 : InvoiceRow :=
  {| IDX := 1; CUSTOMERID := "C001"; MOBILENO := "94771234567";
     FILENAME := "inv1.pdf"; PDFDATA := String.list_byte_of_string "%PDF-1";
     DOWNLOAD := "F" |}.

Definition row2 : InvoiceRow :=
  {| IDX := 2; CUSTOMERID := "C002"; MOBILENO := "0771234567";
     FILENAME := "inv2.pdf"; PDFDATA := String.list_byte_of_string "%PDF-2";
     DOWNLOAD := "F" |}.

Definition profile1 : SmsProfile :=
  {| CUSTOMER_ID := "C001"; SMARTINVOICE_ACTIVE := "T";
     SMS_USERNAME := Some "user "; SMS_PASSWORD := Some "pw" |}.

Definition profile2 : SmsProfile :=
  {| CUSTOMER_ID := "C002"; SMARTINVOICE_ACTIVE := "F";
     SMS_USERNAME := Some "user2"; SMS_PASSWORD := Some "pw2" |}.

(** A process that has not connected yet, with both files on disk. *)
Definition world0 : World :=
  {| pool := false; tb_SMART_INVOICE := [row1; row2];
     tb_SMS_MAIN := [profile1; profile2]; tb_SMS_LOG := []; drive := [];
     fs := {[ "credentials.json" := FClientSecret installed0;
              "token.json" := FToken tokens0 ]};
     trace := [] |}.

(** The same process once the pool exists. *)
Definition world1 : World := set_pool true world0.

(** An environment in which only the call of index 3 fails: the start makes
    calls 0 to 2, and call 3 is the connection of the first tick. *)
Definition env_refused : Env := env_with [3%nat] "ECONNREFUSED" "OK:12345" tokens0.

(** An environment in which the very first call fails. *)
Definition env_no_database : Env := env_with [0%nat] "ECONNREFUSED" "" tokens0.

(** An invoice of the folder created [days_ago] days before day 1000, the day
    of [clock]. *)
Definition pdf_created (i : string) (days_ago : Z) : DriveFile :=
  {| fileId := i; fileName := i +:+ ".pdf"; mimeType := pdf_mime; parent := folder0;
     trashed := false; createdTime := (1000 - days_ago) * day_ms;
     webViewLink := "https://drive.google.com/file/d/" +:+ i; anyone_reader := true |}.

(** An old file of the folder that is not a PDF. *)
Definition old_sheet : DriveFile :=
  {| fileId := "sheet"; fileName := "totals.xlsx"; mimeType := "application/vnd.ms-excel";
     parent := folder0; trashed := false; createdTime := 900 * day_ms;
     webViewLink := "https://drive.google.com/file/d/sheet"; anyone_reader := false |}.

(** A folder with two old invoices, one created exactly seven days ago, and
    the old sheet. *)
Definition world_sweep : World :=
  set_drive (λ _, [pdf_created "old9" 9; pdf_created "week" 7; old_sheet;
                   pdf_created "old8" 8]) world1.

(** A hundred invoices of the folder uploaded yesterday. *)
Definition recent_pdfs : list DriveFile :=
  (λ i, pdf_created ("new" +:+ pretty i) 1) <$> seq 0 100.

(** The folder after a busy week: an invoice uploaded nine days ago and, after
    it, a hundred uploaded yesterday. *)
Definition world_crowded : World :=
  set_drive (λ _, pdf_created "old9" 9 :: recent_pdfs) world1.

(** The first deletion of the sweep (call 1, after the listing) fails. *)
Definition env_delete_fails : Env := env_with [1%nat] "Rate limit exceeded" "" tokens0.

Definition tokens1 : gmap string string :=
  {[ "access_token" := "a1"; "refresh_token" := "r1" ]}.

(** The refresh at the start (call 0) is refused with [invalid_grant]; the
    operator then pastes a code and the exchange answers [tokens1]. *)
Definition env_invalid_grant : Env :=
  env_with [0%nat] "invalid_grant: Token has been expired or revoked." "OK:12345" tokens1.

(** The first run: no token file yet. *)
Definition world_first_run : World := set_fs (delete "token.json") world0.

(** What a later refresh emits: a new access token and its expiry, without a
    refresh token. *)
Definition refreshed : gmap string string :=
  {[ "access_token" := "a1"; "expiry_date" := "1700003600000" ]}.

(** The gateway rejects the message. *)
Definition env_rejected : Env := env_with [] "" "ERR:Invalid number" tokens0.

(** The gateway accepts the message, with a space before the colon. *)
Definition env_spaced : Env := env_with [] "" "OK :12345" tokens0.

(** The sharing of the first file uploaded (call 1, after its creation)
    fails. *)
Definition env_sharing_fails : Env :=
  env_with [1%nat] "insufficientFilePermissions" "OK:12345" tokens0.

(** A row whose phone number has nine digits and no prefix. *)
Definition row3 : InvoiceRow :=
  {| IDX := 3; CUSTOMERID := "C003"; MOBILENO := "771234567";
     FILENAME := "inv3.pdf"; PDFDATA := String.list_byte_of_string "%PDF-3";
     DOWNLOAD := "F" |}.

(** A process with its pool whose only pending row is [row3]. *)
Definition world_invalid : World := set_invoices (λ _, [row3]) world1.



(** A process started without its credentials file. *)
Definition world_no_credentials : World := set_fs (delete "credentials.json") world0.

(** The refresh at the start (call 0) fails for want of a network; the
    operator then pastes a code and the exchange answers [tokens1]. *)
Definition env_offline : Env :=
  env_with [0%nat] "getaddrinfo ENOTFOUND oauth2.googleapis.com" "OK:12345" tokens1.

(* ===================================================================== *)
(** * The string operations on examples                                   *)
(* ===================================================================== *)

Example split_examples :
  Js.split ":" "OK:12345" = ["OK"; "12345"] ∧
  Js.split ":" "Invalid" = ["Invalid"] ∧
  Js.split ":" "a:b:" = ["a"; "b"; ""] ∧
  Js.split ":" "" = [""] ∧
  Js.split "/" "Smart_Invoice/Invoices" = ["Smart_Invoice"; "Invoices"].
Proof. by vm_compute. Qed.

Example trim_examples :
  Js.trim "  OK " = "OK" ∧ Js.trim "a b" = "a b" ∧ Js.trim "   " = "".
Proof. by vm_compute. Qed.

Example escape_example :
  Js.escape "bill is at: https://d.g/x y" = "bill%20is%20at%3A%20https%3A%2F%2Fd.g%2Fx%20y".
Proof. by vm_compute. Qed.

Example includes_examples :
  Js.includes "invalid_grant" "invalid_grant: Token has been expired or revoked." = true ∧
  Js.includes "invalid_grant" "getaddrinfo ENOTFOUND oauth2.googleapis.com" = false.
Proof. by vm_compute. Qed.

Example status_token_examples :
  status_token "OK:12345" = "OK" ∧ status_token "ok:12345" = "ok" ∧
  status_token "ERR:Invalid number" = "ERR" ∧ status_token " OK :1" = "OK" ∧
  status_token "OK" = "OK" ∧ status_token "" = "".
Proof. by vm_compute. Qed.

(* ===================================================================== *)
(** * Reasoning about the monad                                           *)
(* ===================================================================== *)

Ltac split_andb :=
  repeat match goal with
         | H : _ && _ = true |- _ => apply andb_prop in H as [? ?]
         | H : bool_decide _ = true |- _ => apply bool_decide_eq_true in H
         end.

#[local] Arguments Js.escape : simpl never.
#[local] Arguments Js.trim : simpl never.
#[local] Arguments Js.split : simpl never.

Ltac norm_len :=
  cbn [trace log_event set_pool set_invoices set_sms_log set_drive set_fs];
  rewrite ?length_app; cbn [length]; rewrite ?Nat.add_1_r.

Ltac norm_len_in H :=
  cbn [trace log_event set_pool set_invoices set_sms_log set_drive set_fs] in H;
  rewrite ?length_app in H; cbn [length] in H; rewrite ?Nat.add_1_r in H.

Ltac munfold :=
  unfold mbind, M_bind, mret, M_ret, try_catch, throw, process_exit, get_world, modify in *.

Lemma preserves_ret {A} P (a : A) : preserves P (mret a).
Proof. by intros w Hw. Qed.

Lemma preserves_throw {A} P e : preserves P (@throw A e).
Proof. by intros w Hw. Qed.

Lemma preserves_exit {A} P c : preserves P (@process_exit A c).
Proof. by intros w Hw. Qed.

Lemma preserves_get P : preserves P get_world.
Proof. by intros w Hw. Qed.

Lemma preserves_bind {A B} P (m : M A) (k : A → M B) :
  preserves P m → (∀ a, preserves P (k a)) → preserves P (m ≫= k).
Proof.
  intros Hm Hk w Hw. specialize (Hm w Hw). munfold.
  destruct (m w) as [a w'|e w'|c w']; simpl in *; auto. by apply Hk.
Qed.

Lemma preserves_catch {A} P (m : M A) h :
  preserves P m → (∀ e, preserves P (h e)) → preserves P (try_catch m h).
Proof.
  intros Hm Hh w Hw. specialize (Hm w Hw). munfold.
  destruct (m w) as [a w'|e w'|c w']; simpl in *; auto. by apply Hh.
Qed.

Lemma preserves_for_of {A} P (xs : list A) body :
  (∀ x, x ∈ xs → preserves P (body x)) → preserves P (for_of xs body).
Proof.
  induction xs as [|x xs IH]; intros Hb; simpl.
  - apply preserves_ret.
  - apply preserves_bind; [apply Hb; left|].
    intros _. apply IH. intros y Hy. apply Hb. by right.
Qed.

Lemma preserves_modify P f :
  (∀ w, P w → P (f w)) → preserves P (modify f).
Proof. intros Hf w Hw. by apply Hf. Qed.

Section Preservation.

Variable env : Env.
Variable good : Event → Prop.
Variable P : World → Prop.
Hypothesis HP : Invariant good P.

Lemma preserves_extcall e : good e → preserves P (extcall env e).
Proof.
  intros He w Hw. unfold extcall.
  destruct (fault env _); simpl; by apply (inv_event _ _ HP).
Qed.

End Preservation.

(* ===================================================================== *)
(** * Phone numbers                                                       *)
(* ===================================================================== *)

Lemma test_94_9digits_spec raw :
  test_94_9digits raw = true ↔ ∃ rest, raw = "94" +:+ rest ∧ nine_digits rest.
Proof.
  unfold test_94_9digits, nine_digits. split.
  - intros H. destruct raw as [|a [|b rest]]; simpl in H; split_andb; try discriminate.
    subst.
    by exists rest.
  - intros (rest & -> & Hlen & Hdig).
    change ("94" +:+ rest) with (String "9" (String "4" rest)). simpl.
    rewrite Hdig, bool_decide_eq_true_2 by done. done.
Qed.

Lemma test_0_9digits_spec raw :
  test_0_9digits raw = true ↔ ∃ rest, raw = "0" +:+ rest ∧ nine_digits rest.
Proof.
  unfold test_0_9digits, nine_digits. split.
  - intros H. destruct raw as [|a rest]; simpl in H; split_andb; try discriminate.
    subst.
    by exists rest.
  - intros (rest & -> & Hlen & Hdig).
    change ("0" +:+ rest) with (String "0" rest). simpl.
    rewrite Hdig, bool_decide_eq_true_2 by done. done.
Qed.

Lemma customerPhone_of_local raw phone :
  customerPhone_of raw = Some phone → local_form phone.
Proof.
  unfold customerPhone_of.
  destruct (test_94_9digits raw) eqn:H94.
  - intros [= <-]. apply test_94_9digits_spec in H94 as (rest & -> & Hrest).
    by exists rest.
  - destruct (test_0_9digits raw) eqn:H0; [|done].
    intros [= <-]. by apply test_0_9digits_spec.
Qed.

(* ===================================================================== *)
(** * What every step of the program keeps                                *)
(* ===================================================================== *)

Section Keeps.

Variable env : Env.
Variable good : Event → Prop.
Variable P : World → Prop.
Hypothesis HP : Invariant good P.

(** Every external call is a good event; an entry into [sendSMS] is one where
    the statement at hand says so. *)
Hypothesis Hcalls : ∀ e, (∀ p c l, e ≠ EvSendSMS p c l) → good e.

Ltac keeps :=
  repeat first
    [ apply preserves_ret | apply preserves_throw | apply preserves_exit
    | apply preserves_get
    | apply preserves_bind; [|intros ?]
    | apply preserves_catch; [|intros ?]
    | apply preserves_for_of; intros ? _
    | apply (preserves_extcall env good P HP); apply Hcalls; by intros
    | apply preserves_modify; intros ? ?;
      first [ by apply (inv_pool _ _ HP) | by apply (inv_invoices _ _ HP)
            | by apply (inv_sms_log _ _ HP) | by apply (inv_drive _ _ HP)
            | by apply (inv_fs _ _ HP) ]
    | match goal with
      | |- preserves _ (if ?b then _ else _) => destruct b
      | |- preserves _ (match ?x with _ => _ end) => destruct x
      end ].

Lemma keeps_connectToDatabase : preserves P (connectToDatabase env).
Proof. unfold connectToDatabase, mssql_connect. keeps. Qed.

Lemma keeps_uploadToDrive auth pdfBuffer fileName folderId :
  preserves P (uploadToDrive env auth pdfBuffer fileName folderId).
Proof. unfold uploadToDrive, files_create, permissions_create. keeps. Qed.

Lemma keeps_update_download idx : preserves P (update_download env idx).
Proof. unfold update_download. keeps. Qed.

Lemma keeps_sendSMS phone customerID link :
  good (EvSendSMS phone customerID link) →
  preserves P (sendSMS env phone customerID link).
Proof.
  intros Hgood. unfold sendSMS. apply preserves_bind.
  { apply preserves_modify. intros w Hw. by apply (inv_event _ _ HP). }
  intros _. apply preserves_catch; [|intros; apply preserves_ret].
  apply preserves_bind; [apply keeps_connectToDatabase|intros _].
  unfold select_profile, axios_get, insert_log. keeps.
Qed.

Lemma keeps_poll_row auth folderId row :
  (∀ p c l, local_form p → good (EvSendSMS p c l)) →
  preserves P (poll_row env auth folderId row).
Proof.
  intros Hlocal. unfold poll_row.
  apply preserves_catch; [|intros; apply preserves_ret].
  destruct (customerPhone_of (MOBILENO row)) as [phone|] eqn:Hphone;
    [|apply preserves_ret].
  apply preserves_bind; [apply keeps_uploadToDrive|intros link].
  apply preserves_bind; [apply keeps_update_download|intros _].
  apply keeps_sendSMS, Hlocal. by eapply customerPhone_of_local.
Qed.

Lemma keeps_poll_rows auth folderId rows :
  (∀ p c l, local_form p → good (EvSendSMS p c l)) →
  preserves P (poll_rows env auth folderId rows).
Proof.
  intros Hlocal. apply preserves_for_of. intros row _. by apply keeps_poll_row.
Qed.

Lemma keeps_poll_tick auth folderId :
  (∀ p c l, local_form p → good (EvSendSMS p c l)) →
  preserves P (poll_tick env auth folderId).
Proof.
  intros Hlocal. unfold poll_tick.
  apply preserves_catch; [|intros; apply preserves_ret].
  apply preserves_bind; [apply keeps_connectToDatabase|intros _].
  unfold select_pending.
  apply preserves_bind; [keeps|intros rows]. by apply keeps_poll_rows.
Qed.

Lemma keeps_deleteOldFiles auth folderId :
  preserves P (deleteOldFiles env auth folderId).
Proof. unfold deleteOldFiles, delete_if_old, files_list, files_delete. keeps. Qed.

End Keeps.

(* ===================================================================== *)
(** * The notification step                                               *)
(* ===================================================================== *)

(** [sendSMS] returns normally whatever happens inside, and touches neither
    the invoice table nor the Drive. *)
Lemma sendSMS_frame env phone customerID link w :
  pool w = true →
  ∃ w' tail,
    sendSMS env phone customerID link w = Ok tt w' ∧
    pool w' = true ∧
    tb_SMART_INVOICE w' = tb_SMART_INVOICE w ∧
    tb_SMS_MAIN w' = tb_SMS_MAIN w ∧
    drive w' = drive w ∧
    trace w' = trace w ++ EvSendSMS phone customerID link :: tail ∧
    Forall notify_event tail.
Proof.
  intros Hpool.
  unfold sendSMS, connectToDatabase, select_profile, axios_get, insert_log, extcall.
  munfold. cbn -[Js.escape Js.trim Js.split]. rewrite Hpool.
  repeat match goal with
         | |- context [fault env ?n] => destruct (fault env n)
         | |- context [filter ?f ?l] => destruct (filter f l)
         | |- context [decide ?p] => destruct (decide p)
         end;
    (eexists _, _; split; [reflexivity|];
     cbn -[Js.escape Js.trim Js.split];
     rewrite <- ?app_assoc; cbn -[Js.escape Js.trim Js.split];
     repeat split; try done; repeat constructor).
Qed.

(* ===================================================================== *)
(** * Invariants of the program                                           *)
(* ===================================================================== *)

Lemma mark_downloaded_IDX idx r : IDX (mark_downloaded idx r) = IDX r.
Proof. unfold mark_downloaded. by destruct (decide _). Qed.

Lemma mark_downloaded_T idx r :
  DOWNLOAD r = "T" → DOWNLOAD (mark_downloaded idx r) = "T".
Proof. unfold mark_downloaded. by destruct (decide _). Qed.

Lemma mark_downloaded_hit r : DOWNLOAD (mark_downloaded (IDX r) r) = "T".
Proof. unfold mark_downloaded. by rewrite decide_True. Qed.

(** Once [DOWNLOAD] is ['T'] no step of the program changes it. *)
Lemma uploaded_invariant idx : Invariant (λ _, True) (uploaded idx).
Proof.
  split; try done.
  intros idx' w Hw r Hr Hidx. simpl in Hr.
  apply list_elem_of_fmap in Hr as (r0 & -> & Hr0).
  rewrite mark_downloaded_IDX in Hidx.
  apply mark_downloaded_T. by apply Hw.
Qed.

(** The events added since a trace [t0] all satisfy [good]. *)
Lemma trace_invariant good t0 :
  Invariant good (λ w, ∃ seg, trace w = t0 ++ seg ∧ Forall good seg).
Proof.
  split; try done.
  intros e w He (seg & Heq & Hseg). exists (seg ++ [e]). split.
  - simpl. by rewrite Heq, app_assoc.
  - apply Forall_app. split; [done|]. by constructor.
Qed.

Lemma new_events_app {A} (m : M A) w seg :
  trace (world_of (m w)) = trace w ++ seg → new_events m w = seg.
Proof. unfold new_events. intros ->. by rewrite drop_app_length. Qed.

Lemma poll_tick_events_local env auth folderId w :
  Forall local_phone_event (new_events (poll_tick env auth folderId) w).
Proof.
  destruct (keeps_poll_tick env local_phone_event _ (trace_invariant _ (trace w)))
    with (auth := auth) (folderId := folderId) (w := w) as (seg & Heq & Hseg).
  - intros e He. destruct e; try done. by destruct (He phone customerID link).
  - done.
  - exists []. split; [by rewrite app_nil_r|done].
  - by rewrite (new_events_app _ _ _ Heq).
Qed.

(* ===================================================================== *)
(** * Claims about the phone number                                       *)
(* ===================================================================== *)

(** C2. Phone validation in the poll loop: an input made of [94] and nine
    digits comes out with the [94] replaced by [0]; an input made of [0] and
    nine digits comes out unchanged; for any other input the row is skipped:
    the loop body returns at once and leaves the whole world as it was, so the
    row keeps its [DOWNLOAD] flag and nothing is uploaded or sent.  The three
    inputs of the specification are instances. *)
Theorem phone_validation :
  (∀ rest, nine_digits rest →
     customerPhone_of ("94" +:+ rest) = Some ("0" +:+ rest)) ∧
  (∀ rest, nine_digits rest →
     customerPhone_of ("0" +:+ rest) = Some ("0" +:+ rest)) ∧
  (∀ raw, (∀ rest, nine_digits rest → raw ≠ "94" +:+ rest ∧ raw ≠ "0" +:+ rest) →
     customerPhone_of raw = None ∧
     ∀ env auth folderId row w,
       MOBILENO row = raw → poll_row env auth folderId row w = Ok tt w) ∧
  customerPhone_of "94771234567" = Some "0771234567" ∧
  customerPhone_of "0771234567" = Some "0771234567" ∧
  customerPhone_of "123" = None.
Proof.
  split; [|split; [|split]].
  - intros rest Hrest. unfold customerPhone_of.
    assert (test_94_9digits ("94" +:+ rest) = true) as ->
      by (apply test_94_9digits_spec; by exists rest).
    done.
  - intros rest Hrest. unfold customerPhone_of.
    assert (test_0_9digits ("0" +:+ rest) = true) as ->
      by (apply test_0_9digits_spec; by exists rest).
    by assert (test_94_9digits ("0" +:+ rest) = false) as ->.
  - intros raw Hraw.
    assert (customerPhone_of raw = None) as Hnone.
    { unfold customerPhone_of.
      destruct (test_94_9digits raw) eqn:H94.
      { apply test_94_9digits_spec in H94 as (rest & -> & Hrest).
        by destruct (Hraw rest Hrest). }
      destruct (test_0_9digits raw) eqn:H0; [|done].
      apply test_0_9digits_spec in H0 as (rest & -> & Hrest).
      by destruct (Hraw rest Hrest). }
    split; [done|].
    intros env auth folderId row w Hrow. unfold poll_row. rewrite Hrow, Hnone. done.
  - done.
Qed.

(** C10. Every phone number the poll loop hands to [sendSMS] during a tick is
    in local form: a zero followed by exactly nine digits. *)
Theorem notified_phone_is_local env auth folderId w phone customerID link :
  EvSendSMS phone customerID link ∈ new_events (poll_tick env auth folderId) w →
  local_form phone.
Proof.
  intros Hin.
  pose proof (poll_tick_events_local env auth folderId w) as Hall.
  rewrite Forall_forall in Hall. by apply Hall in Hin.
Qed.

(* ===================================================================== *)
(** * One row of a tick                                                   *)
(* ===================================================================== *)

Lemma marked_uploaded env folderId row w : uploaded (IDX row) (marked env folderId row w).
Proof.
  intros r Hr Hidx. simpl in Hr.
  apply list_elem_of_fmap in Hr as (r0 & -> & _).
  rewrite mark_downloaded_IDX in Hidx. rewrite <- Hidx.
  apply mark_downloaded_hit.
Qed.

Lemma marked_trace env folderId row w :
  trace (marked env folderId row w) =
  trace w ++ [EvFilesCreate (FILENAME row) pdf_mime folderId;
              EvPermissionsCreate (fresh_id env (length (trace w)));
              EvUpdateDownload (IDX row)].
Proof. simpl. by rewrite <- !app_assoc. Qed.

(** With the upload and the UPDATE done, what is left of the loop body is the
    call of [sendSMS]. *)
Lemma poll_row_marked env auth folderId row phone w :
  pool w = true →
  customerPhone_of (MOBILENO row) = Some phone →
  fault env (length (trace w)) = None →
  fault env (S (length (trace w))) = None →
  fault env (S (S (length (trace w)))) = None →
  poll_row env auth folderId row w =
  sendSMS env phone (CUSTOMERID row) (fresh_link env (length (trace w)))
    (marked env folderId row w).
Proof.
  intros Hpool Hphone H0 H1 H2.
  destruct (sendSMS_frame env phone (CUSTOMERID row)
              (fresh_link env (length (trace w))) (marked env folderId row w))
    as (w' & tail & Hsend & _); [done|].
  unfold poll_row. rewrite Hphone.
  unfold uploadToDrive, files_create, permissions_create, update_download, extcall.
  munfold. cbn -[sendSMS]. rewrite H0. cbn -[sendSMS].
  rewrite length_app, Nat.add_1_r, H1. cbn -[sendSMS].
  rewrite !length_app, !Nat.add_1_r, H2. cbn -[sendSMS].
  unfold marked, shared, uploaded_file in Hsend. cbn -[sendSMS] in Hsend.
  by rewrite Hsend.
Qed.

(** When the UPDATE fails the loop body ends there: [sendSMS] is not called
    and the row stays as it was. *)
Lemma poll_row_update_fails env auth folderId row phone message w :
  customerPhone_of (MOBILENO row) = Some phone →
  fault env (length (trace w)) = None →
  fault env (S (length (trace w))) = None →
  fault env (S (S (length (trace w)))) = Some message →
  poll_row env auth folderId row w =
  Ok tt (log_event (EvUpdateDownload (IDX row)) (shared env folderId row w)).
Proof.
  intros Hphone H0 H1 H2.
  unfold poll_row. rewrite Hphone.
  unfold uploadToDrive, files_create, permissions_create, update_download, extcall.
  munfold. cbn -[sendSMS]. rewrite H0. cbn -[sendSMS].
  rewrite length_app, Nat.add_1_r, H1. cbn -[sendSMS].
  by rewrite !length_app, !Nat.add_1_r, H2.
Qed.

(** An error inside the loop body never leaves it. *)
Lemma poll_row_ok env auth folderId row w :
  pool w = true →
  ∃ w', poll_row env auth folderId row w = Ok tt w' ∧ pool w' = true.
Proof.
  intros Hpool. unfold poll_row.
  destruct (customerPhone_of (MOBILENO row)) as [phone|]; [|by exists w].
  unfold uploadToDrive, files_create, permissions_create, update_download, extcall.
  munfold. cbn -[sendSMS].
  repeat match goal with
         | |- context [fault env ?n] => destruct (fault env n); cbn -[sendSMS]
         end;
    try by eexists.
  match goal with
  | |- context [sendSMS env ?p ?c ?l ?w1] =>
      destruct (sendSMS_frame env p c l w1) as (w' & tail & -> & ? & _); [done|]
  end.
  by exists w'.
Qed.

(** For a customer without an active profile [sendSMS] stops after the
    lookup. *)
Lemma sendSMS_suppressed env phone customerID link w :
  pool w = true →
  suppressed customerID w →
  sendSMS env phone customerID link w =
  Ok tt (log_event (EvSelectProfile customerID)
           (log_event (EvSendSMS phone customerID link) w)).
Proof.
  intros Hpool Hsup. unfold suppressed in Hsup.
  unfold sendSMS, connectToDatabase, select_profile, axios_get, insert_log, extcall.
  munfold. cbn -[Js.escape Js.trim Js.split]. rewrite Hpool.
  destruct (fault env _); [done|]. cbn -[Js.escape Js.trim Js.split].
  destruct (filter _ (tb_SMS_MAIN w)) as [|r0 ?]; [done|].
  by rewrite decide_False.
Qed.

(** The same without a pool: the only call that may come before the lookup is
    the connection. *)
Lemma sendSMS_suppressed_any env phone customerID link w :
  suppressed customerID w →
  tb_SMS_LOG (world_of (sendSMS env phone customerID link w)) = tb_SMS_LOG w ∧
  Forall (λ e, ¬ gateway_or_log_event e) (new_events (sendSMS env phone customerID link) w).
Proof.
  intros Hsup. destruct (pool w) eqn:Hpool.
  - rewrite (new_events_app _ _ [EvSendSMS phone customerID link; EvSelectProfile customerID]).
    + rewrite sendSMS_suppressed by done. split; [done|]. repeat constructor; by intros [].
    + rewrite sendSMS_suppressed by done. simpl. by rewrite <- app_assoc.
  - unfold suppressed in Hsup. unfold new_events.
    unfold sendSMS, connectToDatabase, mssql_connect, select_profile, axios_get,
      insert_log, extcall.
    munfold. cbn -[Js.escape Js.trim Js.split]. rewrite Hpool.
    cbn -[Js.escape Js.trim Js.split].
    repeat match goal with
           | |- context [fault env ?n] => destruct (fault env n); cbn -[Js.escape Js.trim Js.split]
           end;
      try (destruct (filter _ (tb_SMS_MAIN w)) as [|r0 ?];
           [|rewrite decide_False by done]);
      cbn -[Js.escape Js.trim Js.split];
      (split; [done|]);
      rewrite <- ?app_assoc, drop_app_length; repeat constructor; by intros [].
Qed.

Lemma uploaded_not_pending idx w :
  uploaded idx w → ∀ r, r ∈ pending w → IDX r ≠ idx.
Proof.
  intros Hup r Hr Hidx. apply list_elem_of_filter in Hr as [HF Hr].
  specialize (Hup r Hr Hidx). congruence.
Qed.

Lemma keeps_uploaded_rest env auth folderId idx rest k w :
  uploaded idx w →
  uploaded idx (world_of ((poll_rows env auth folderId rest ;;
                           poll_ticks env auth folderId k) w)).
Proof.
  apply preserves_bind.
  - by apply (keeps_poll_rows env _ _ (uploaded_invariant idx)).
  - intros _. apply preserves_for_of. intros _ _.
    by apply (keeps_poll_tick env _ _ (uploaded_invariant idx)).
Qed.

(* ===================================================================== *)
(** * Claims about the order of upload, UPDATE and notification           *)
(* ===================================================================== *)

(** C1. For a row whose upload succeeds (both Drive calls) the next call of
    the loop body is the UPDATE that sets [DOWNLOAD = 'T'] for the row's
    [IDX], and [sendSMS] comes only after it: if the UPDATE fails, the loop
    body ends without calling [sendSMS]; once it has succeeded, [sendSMS] is
    entered in a world where the row is already uploaded.  Whatever the
    notification then does (every answer and every failure the environment can
    choose), the loop body returns normally, [sendSMS] has made only its own
    calls (no upload, no UPDATE) and left the invoice table and the Drive as
    they were, the row is uploaded at the end, it stays so through the rest of
    the tick and any number of later ticks, and no later tick fetches it
    again. *)
Theorem upload_marked_before_notification env auth folderId row phone w :
  pool w = true →
  customerPhone_of (MOBILENO row) = Some phone →
  fault env (length (trace w)) = None →
  fault env (S (length (trace w))) = None →
  let link := fresh_link env (length (trace w)) in
  let w1 := marked env folderId row w in
  (∀ message, fault env (S (S (length (trace w)))) = Some message →
     poll_row env auth folderId row w =
     Ok tt (log_event (EvUpdateDownload (IDX row)) (shared env folderId row w))) ∧
  (fault env (S (S (length (trace w)))) = None →
   poll_row env auth folderId row w = sendSMS env phone (CUSTOMERID row) link w1 ∧
   uploaded (IDX row) w1 ∧
   trace w1 = trace w ++ [EvFilesCreate (FILENAME row) pdf_mime folderId;
                          EvPermissionsCreate (fresh_id env (length (trace w)));
                          EvUpdateDownload (IDX row)] ∧
   ∃ w' tail,
     poll_row env auth folderId row w = Ok tt w' ∧
     trace w' = trace w1 ++ EvSendSMS phone (CUSTOMERID row) link :: tail ∧
     Forall notify_event tail ∧
     tb_SMART_INVOICE w' = tb_SMART_INVOICE w1 ∧
     drive w' = drive w1 ∧
     uploaded (IDX row) w' ∧
     ∀ rest k,
       let w2 := world_of ((poll_rows env auth folderId rest ;;
                            poll_ticks env auth folderId k) w') in
       uploaded (IDX row) w2 ∧ ∀ r, r ∈ pending w2 → IDX r ≠ IDX row).
Proof.
  intros Hpool Hphone H0 H1 link w1.
  split; [intros message H2; by eapply poll_row_update_fails|].
  intros H2.
  pose proof (poll_row_marked env auth folderId row phone w Hpool Hphone H0 H1 H2) as Hrow.
  pose proof (marked_uploaded env folderId row w) as Hup.
  split; [done|]. split; [done|]. split; [apply marked_trace|].
  destruct (sendSMS_frame env phone (CUSTOMERID row) link w1)
    as (w' & tail & Hsend & _ & Hinv & _ & Hdrive & Htrace & Htail); [done|].
  assert (uploaded (IDX row) w') as Hup'.
  { intros r Hr. rewrite Hinv in Hr. by apply Hup. }
  exists w', tail. rewrite Hrow.
  repeat split; try done.
  - by apply keeps_uploaded_rest.
  - by apply uploaded_not_pending, keeps_uploaded_rest.
Qed.

(** C7. For a customer whose SMS profile is missing or not active, [sendSMS]
    makes no HTTP request and writes no log row, in any world.  In the poll
    loop, a row of such a customer whose upload and UPDATE succeed makes
    exactly five calls (create, share, UPDATE, the entry into [sendSMS] and the
    profile lookup), leaves [tb_SMS_LOG] as it was, and is uploaded when the
    loop body returns and still at the end of the tick. *)
Theorem suppressed_customer_not_notified env auth folderId :
  (∀ phone customerID link w,
     suppressed customerID w →
     tb_SMS_LOG (world_of (sendSMS env phone customerID link w)) = tb_SMS_LOG w ∧
     Forall (λ e, ¬ gateway_or_log_event e)
       (new_events (sendSMS env phone customerID link) w)) ∧
  (∀ row phone w,
     pool w = true →
     customerPhone_of (MOBILENO row) = Some phone →
     suppressed (CUSTOMERID row) w →
     fault env (length (trace w)) = None →
     fault env (S (length (trace w))) = None →
     fault env (S (S (length (trace w)))) = None →
     ∃ w',
       poll_row env auth folderId row w = Ok tt w' ∧
       new_events (poll_row env auth folderId row) w =
         [EvFilesCreate (FILENAME row) pdf_mime folderId;
          EvPermissionsCreate (fresh_id env (length (trace w)));
          EvUpdateDownload (IDX row);
          EvSendSMS phone (CUSTOMERID row) (fresh_link env (length (trace w)));
          EvSelectProfile (CUSTOMERID row)] ∧
       tb_SMS_LOG w' = tb_SMS_LOG w ∧
       uploaded (IDX row) w' ∧
       ∀ rest, uploaded (IDX row) (world_of (poll_rows env auth folderId rest w'))).
Proof.
  split; [intros; by apply sendSMS_suppressed_any|].
  intros row phone w Hpool Hphone Hsup H0 H1 H2.
  pose proof (poll_row_marked env auth folderId row phone w Hpool Hphone H0 H1 H2) as Hrow.
  rewrite sendSMS_suppressed in Hrow by done.
  eexists. split; [exact Hrow|].
  assert (uploaded (IDX row)
            (log_event (EvSelectProfile (CUSTOMERID row))
               (log_event (EvSendSMS phone (CUSTOMERID row)
                             (fresh_link env (length (trace w))))
                  (marked env folderId row w)))) as Hup.
  { intros r Hr. by apply (marked_uploaded env folderId row w). }
  repeat split; try done.
  - apply new_events_app. rewrite Hrow. simpl. by rewrite <- !app_assoc.
  - intros rest. by apply (keeps_poll_rows env _ _ (uploaded_invariant (IDX row))).
Qed.

(* ===================================================================== *)
(** * Claims about the SMS gateway answer                                 *)
(* ===================================================================== *)

(** C6, as the code has it.  For an active profile, with the lookup and the
    HTTP request answered, the answer is split at its colons and its first
    token, trimmed, is compared with ["OK"].  When they are equal the INSERT
    of the log row (customer, trimmed credentials, phone, link) is issued, and
    the row is in [tb_SMS_LOG] exactly when that INSERT succeeds.  When they
    differ nothing is inserted and nothing more is called.  In both cases
    [sendSMS] returns normally, without a value: the rejection is not reported
    to the caller. *)
Theorem gateway_answer_decides_log env phone customerID link w r0 profiles :
  pool w = true →
  filter (λ r, CUSTOMER_ID r = customerID) (tb_SMS_MAIN w) = r0 :: profiles →
  SMARTINVOICE_ACTIVE r0 = "T" →
  fault env (S (length (trace w))) = None →
  fault env (S (S (length (trace w)))) = None →
  let status := status_token (http_data env (S (S (length (trace w))))) in
  let asked := [EvSendSMS phone customerID link; EvSelectProfile customerID;
                EvHttpGet (gateway_url r0 phone link)] in
  let record := log_record r0 phone customerID link in
  ∃ w',
    sendSMS env phone customerID link w = Ok tt w' ∧
    (status = "OK" →
       trace w' = trace w ++ asked ++ [EvInsertLog record] ∧
       (fault env (S (S (S (length (trace w))))) = None →
          tb_SMS_LOG w' = tb_SMS_LOG w ++ [record]) ∧
       (fault env (S (S (S (length (trace w))))) ≠ None →
          tb_SMS_LOG w' = tb_SMS_LOG w)) ∧
    (status ≠ "OK" →
       trace w' = trace w ++ asked ∧ tb_SMS_LOG w' = tb_SMS_LOG w).
Proof.
  intros Hpool Hprofile Hactive H1 H2 status asked record.
  subst status asked record. unfold status_token, gateway_url, log_record.
  unfold sendSMS, connectToDatabase, select_profile, axios_get, insert_log, extcall.
  munfold. cbn -[Js.escape Js.trim Js.split]. rewrite Hpool.
  norm_len. rewrite H1. cbn -[Js.escape Js.trim Js.split].
  rewrite Hprofile, decide_True by done. cbn -[Js.escape Js.trim Js.split].
  norm_len. rewrite H2. cbn -[Js.escape Js.trim Js.split].
  destruct (decide (Js.trim _ = "OK")) as [Hok|Hno].
  - cbn -[Js.escape Js.trim Js.split]. norm_len.
    cbn -[Js.escape Js.trim Js.split].
    destruct (fault env (S (S (S (length (trace w)))))) eqn:H3;
      cbn -[Js.escape Js.trim Js.split];
      (eexists; split; [reflexivity|]); (split; [intros _|done]);
      cbn -[Js.escape Js.trim Js.split]; rewrite <- !app_assoc; by repeat split.
  - eexists. split; [reflexivity|]. split; [done|]. intros _.
    cbn -[Js.escape Js.trim Js.split]. rewrite <- !app_assoc. by split.
Qed.

(* ===================================================================== *)
(** * Where the process can end                                           *)
(* ===================================================================== *)

Lemma no_exit_ret {A} (a : A) : no_exit (mret a).
Proof. by intros w c w'. Qed.

Lemma no_exit_throw {A} e : no_exit (@throw A e).
Proof. by intros w c w'. Qed.

Lemma no_exit_get : no_exit get_world.
Proof. by intros w c w'. Qed.

Lemma no_exit_modify f : no_exit (modify f).
Proof. by intros w c w'. Qed.

Lemma no_exit_extcall env e : no_exit (extcall env e).
Proof. intros w c w'. unfold extcall. by destruct (fault env _). Qed.

Lemma no_exit_bind {A B} (m : M A) (k : A → M B) :
  no_exit m → (∀ a, no_exit (k a)) → no_exit (m ≫= k).
Proof.
  intros Hm Hk w c w'. munfold. specialize (Hm w).
  destruct (m w) as [a w1|e w1|c1 w1]; [apply Hk|done|by destruct (Hm c1 w1)].
Qed.

Lemma no_exit_catch {A} (m : M A) h :
  no_exit m → (∀ e, no_exit (h e)) → no_exit (try_catch m h).
Proof.
  intros Hm Hh w c w'. munfold. specialize (Hm w).
  destruct (m w) as [a w1|e w1|c1 w1]; [done|apply Hh|by destruct (Hm c1 w1)].
Qed.

Lemma no_exit_for_of {A} (xs : list A) body :
  (∀ x, no_exit (body x)) → no_exit (for_of xs body).
Proof.
  intros Hb. induction xs as [|x xs IH]; simpl.
  - apply no_exit_ret.
  - by apply no_exit_bind.
Qed.

Ltac no_exits :=
  repeat first
    [ apply no_exit_ret | apply no_exit_throw | apply no_exit_get
    | apply no_exit_modify | apply no_exit_extcall
    | apply no_exit_bind; [|intros ?]
    | apply no_exit_catch; [|intros ?]
    | apply no_exit_for_of; intros ?
    | match goal with
      | |- no_exit (if ?b then _ else _) => destruct b
      | |- no_exit (match ?x with _ => _ end) => destruct x
      end ].

(** A [try] whose handler returns normally makes a computation that cannot
    end the process return normally. *)
Lemma returns_catch {A} (m : M A) h :
  no_exit m → (∀ e, returns (h e)) → returns (try_catch m h).
Proof.
  intros Hm Hh w. munfold. specialize (Hm w).
  destruct (m w) as [a w1|e w1|c1 w1]; [by eexists _, _|apply Hh|by destruct (Hm c1 w1)].
Qed.

Lemma returns_for_of {A} (xs : list A) body :
  (∀ x, x ∈ xs → returns (body x)) → returns (for_of xs body).
Proof.
  induction xs as [|x xs IH]; intros Hb w; simpl.
  - by exists tt, w.
  - munfold. destruct (Hb x (list_elem_of_here _ _) w) as (a & w1 & ->).
    apply IH. intros y Hy. apply Hb. by right.
Qed.

Lemma no_exit_authorize cfg env : no_exit (authorize cfg env).
Proof.
  unfold authorize, read_installed, use_token_file, getAccessToken, read_token,
    manual_authentication, write_file.
  no_exits.
Qed.

Lemma no_exit_resolve_folders env folderNames currentParentId :
  no_exit (resolve_folders env folderNames currentParentId).
Proof.
  revert currentParentId. induction folderNames as [|folderName rest IH];
    intros currentParentId; simpl.
  - apply no_exit_ret.
  - unfold files_list, files_create. no_exits; apply IH.
Qed.

Lemma no_exit_getOrCreateFolder env auth folderPath :
  no_exit (getOrCreateFolder env auth folderPath).
Proof.
  unfold getOrCreateFolder. apply no_exit_catch; [|intros; apply no_exit_throw].
  apply no_exit_resolve_folders.
Qed.

Lemma returns_deleteOldFiles env auth folderId :
  returns (deleteOldFiles env auth folderId).
Proof.
  unfold deleteOldFiles. apply returns_catch; [|intros e w; by exists tt, w].
  unfold delete_if_old, files_list, files_delete. no_exits.
Qed.

Lemma returns_listener_loaded cfg env token tokens :
  returns (listener_loaded cfg env token tokens).
Proof.
  unfold listener_loaded. apply returns_catch; [|intros e w; by exists tt, w].
  unfold write_file. no_exits.
Qed.

Lemma returns_listener_manual cfg env tokens :
  returns (listener_manual cfg env tokens).
Proof.
  unfold listener_manual. apply returns_catch; [|intros e w; by exists tt, w].
  unfold write_file. no_exits.
Qed.

(** The loop over the rows goes through all of them, whatever happens in
    each. *)
Lemma poll_rows_app env auth folderId rows1 rows2 w :
  pool w = true →
  ∃ w1, poll_rows env auth folderId rows1 w = Ok tt w1 ∧ pool w1 = true ∧
        poll_rows env auth folderId (rows1 ++ rows2) w =
        poll_rows env auth folderId rows2 w1.
Proof.
  revert w. induction rows1 as [|row rows1 IH]; intros w Hpool.
  - by exists w.
  - destruct (poll_row_ok env auth folderId row w Hpool) as (w0 & Hrow & Hpool0).
    destruct (IH w0 Hpool0) as (w1 & Hrows & Hpool1 & Happ).
    exists w1. unfold poll_rows in *. simpl. munfold. by rewrite Hrow.
Qed.

Lemma poll_tick_connected env auth folderId w :
  pool w = true →
  ∃ w', poll_tick env auth folderId w = Ok tt w' ∧ pool w' = true.
Proof.
  intros Hpool. unfold poll_tick, connectToDatabase, select_pending, extcall.
  munfold. rewrite Hpool.
  destruct (fault env _); [by eexists|].
  match goal with
  | |- context [poll_rows env auth folderId ?rows ?w0] =>
      destruct (poll_rows_app env auth folderId rows [] w0) as (w1 & Hrows & Hpool1 & _);
        [done|]
  end.
  exists w1. by rewrite Hrows.
Qed.

Lemma poll_tick_connects env auth folderId w :
  pool w = false →
  fault env (length (trace w)) = None →
  ∃ w', poll_tick env auth folderId w = Ok tt w' ∧ pool w' = true.
Proof.
  intros Hpool Hconnect.
  unfold poll_tick, connectToDatabase, mssql_connect, select_pending, extcall.
  munfold. rewrite Hpool, Hconnect.
  match goal with
  | |- context [fault env ?n] => destruct (fault env n); [by eexists|]
  end.
  match goal with
  | |- context [poll_rows env auth folderId ?rows ?w0] =>
      destruct (poll_rows_app env auth folderId rows [] w0) as (w1 & Hrows & Hpool1 & _);
        [done|]
  end.
  exists w1. by rewrite Hrows.
Qed.

Lemma poll_tick_connection_fails env auth folderId w :
  pool w = false →
  fault env (length (trace w)) ≠ None →
  poll_tick env auth folderId w = Exit 1 (log_event EvConnect w).
Proof.
  intros Hpool Hconnect.
  unfold poll_tick, connectToDatabase, mssql_connect, extcall.
  munfold. rewrite Hpool. by destruct (fault env _).
Qed.

(** The listeners of the client [authorize] returns are its own two, and they
    return normally. *)
Lemma authorize_listeners cfg env w auth w' :
  authorize cfg env w = Ok auth w' →
  ∀ l tokens, l ∈ tokens_listeners auth → returns (l tokens).
Proof.
  unfold authorize, read_installed, use_token_file, getAccessToken, read_token,
    manual_authentication, write_file, extcall.
  munfold. intros Hauth l tokens Hl.
  repeat match type of Hauth with
         | context [bool_decide ?p] => destruct (bool_decide p)
         | context [no_refresh_token ?t] => destruct (no_refresh_token t)
         | context [Js.includes ?a ?b] => destruct (Js.includes a b)
         | context [fault env ?n] => destruct (fault env n)
         | context [refreshed_credentials env ?n] => destruct (refreshed_credentials env n)
         | context [fs ?w0 !! ?k] => destruct (fs w0 !! k) as [[]|]
         | _ => progress cbn in Hauth
         end;
    try discriminate;
    injection Hauth as <- <-; cbn in Hl;
    apply list_elem_of_singleton in Hl as ->;
    auto using returns_listener_loaded, returns_listener_manual.
Qed.

(** How the start ends: with the client and the folder, or by
    [process.exit(1)] when [authorize] or [getOrCreateFolder] throws. *)
Lemma startup_outcome cfg env w :
  (∃ started w', startup cfg env w = Ok started w' ∧
     ∃ w0, authorize cfg env w = Ok started.1 w0 ∧
           getOrCreateFolder env started.1 (FOLDER_PATH cfg) w0 = Ok started.2 w') ∨
  (∃ e w', startup cfg env w = Exit 1 w' ∧
     (authorize cfg env w = Throw e w' ∨
      ∃ auth w0, authorize cfg env w = Ok auth w0 ∧
                 getOrCreateFolder env auth (FOLDER_PATH cfg) w0 = Throw e w')).
Proof.
  unfold startup. munfold.
  pose proof (no_exit_authorize cfg env w) as Hauth.
  destruct (authorize cfg env w) as [auth w0|e w0|c w0];
    [|right; exists e, w0; split; [done|by left]|by destruct (Hauth c w0)].
  pose proof (no_exit_getOrCreateFolder env auth (FOLDER_PATH cfg) w0) as Hfolder.
  destruct (getOrCreateFolder env auth (FOLDER_PATH cfg) w0)
    as [folderId w1|e w1|c w1] eqn:Hresolved;
    [|right|by destruct (Hfolder c w1)].
  - left. exists (auth, folderId), w1. split; [done|]. by exists w0.
  - exists e, w1. split; [done|]. right. by exists auth, w0.
Qed.

Lemma poll_tick_outcome env auth folderId w :
  returns_or_exits_1 (poll_tick env auth folderId w).
Proof.
  destruct (pool w) eqn:Hpool.
  - by destruct (poll_tick_connected env auth folderId w Hpool) as (w' & -> & _).
  - destruct (fault env (length (trace w))) eqn:Hconnect.
    + by rewrite poll_tick_connection_fails by (done || congruence).
    + by destruct (poll_tick_connects env auth folderId w Hpool Hconnect) as (w' & -> & _).
Qed.

Lemma main_outcome cfg env schedule w :
  returns_or_exits_1 (main cfg env schedule w).
Proof.
  unfold main. munfold.
  destruct (startup_outcome cfg env w) as
    [([auth folderId] & w' & -> & w0 & Hauth & _)|(e & w' & -> & _)]; [|done].
  simpl in *. pose proof (authorize_listeners cfg env w auth w0 Hauth) as Hlisteners.
  clear Hauth. revert w'. induction schedule as [|c schedule IH]; intros w'; [done|].
  simpl. munfold.
  assert (returns_or_exits_1 (run_callback env auth folderId c w')) as Hc.
  { destruct c as [| |tokens]; simpl.
    - apply poll_tick_outcome.
    - by destruct (returns_deleteOldFiles env auth folderId w') as (a & w1 & ->).
    - destruct (returns_for_of (tokens_listeners auth) (λ l, l tokens)) with (w := w')
        as (a & w1 & Hemit).
      + intros l Hl. by apply Hlisteners.
      + unfold emit_tokens. by rewrite Hemit. }
  destruct (run_callback env auth folderId c w') as [a w1|e w1|code w1]; [|done|done].
  apply IH.
Qed.

(* ===================================================================== *)
(** * Claims about errors                                                 *)
(* ===================================================================== *)

(** C3 fails as stated: the start succeeds (the token is accepted, the folder
    is made), then the first tick cannot connect to the database, and
    [connectToDatabase] ends the process with code 1. *)
Lemma connection_failure_in_tick_exits :
  is_ok (startup cfg0 env_refused world0) = true ∧
  exit_code (main cfg0 env_refused [PollTimer] world0) = Some 1 ∧
  new_events (main cfg0 env_refused [PollTimer]) world0 =
    [EvGetAccessToken; EvFilesList (QFolderNamed "SmartInvoices" None);
     EvFilesCreate "SmartInvoices" folder_mime None; EvConnect].
Proof. by vm_compute. Qed.

(** C3, as the code has it.  An error while a row is processed stays in the
    loop body: the loop goes through every row.  A tick whose pool exists, or
    whose connection succeeds, returns normally whatever fails in it (the
    query of the pending rows included), and so does every sweep.  A tick
    that has to connect and cannot ends the process with code 1, inside
    [connectToDatabase].  The start ends the process with code 1 exactly when
    [authorize] or [getOrCreateFolder] throws.  The process as a whole never
    ends by an uncaught error, and when it ends its code is 1. *)
Theorem error_propagation cfg env auth folderId :
  (∀ rows1 rows2 w,
     pool w = true →
     ∃ w1, poll_rows env auth folderId rows1 w = Ok tt w1 ∧
           poll_rows env auth folderId (rows1 ++ rows2) w =
           poll_rows env auth folderId rows2 w1) ∧
  (∀ w, pool w = true ∨ fault env (length (trace w)) = None →
     ∃ w', poll_tick env auth folderId w = Ok tt w') ∧
  (∀ w, pool w = false → fault env (length (trace w)) ≠ None →
     poll_tick env auth folderId w = Exit 1 (log_event EvConnect w)) ∧
  (∀ w, ∃ w', deleteOldFiles env auth folderId w = Ok tt w') ∧
  (∀ w,
     (∃ started w', startup cfg env w = Ok started w' ∧
        ∃ w0, authorize cfg env w = Ok started.1 w0 ∧
              getOrCreateFolder env started.1 (FOLDER_PATH cfg) w0 = Ok started.2 w') ∨
     (∃ e w', startup cfg env w = Exit 1 w' ∧
        (authorize cfg env w = Throw e w' ∨
         ∃ client w0, authorize cfg env w = Ok client w0 ∧
                      getOrCreateFolder env client (FOLDER_PATH cfg) w0 = Throw e w'))) ∧
  (∀ schedule w, returns_or_exits_1 (main cfg env schedule w)).
Proof.
  repeat split.
  - intros rows1 rows2 w Hpool.
    destruct (poll_rows_app env auth folderId rows1 rows2 w Hpool) as (w1 & ? & _ & ?).
    by exists w1.
  - intros w [Hpool|Hconnect].
    + destruct (poll_tick_connected env auth folderId w Hpool) as (w' & ? & _).
      by exists w'.
    + destruct (pool w) eqn:Hpool.
      * destruct (poll_tick_connected env auth folderId w Hpool) as (w' & ? & _).
        by exists w'.
      * destruct (poll_tick_connects env auth folderId w Hpool Hconnect) as (w' & ? & _).
        by exists w'.
  - intros w. apply poll_tick_connection_fails.
  - intros w. destruct (returns_deleteOldFiles env auth folderId w) as ([] & w' & ?).
    by exists w'.
  - apply startup_outcome.
  - apply main_outcome.
Qed.

(** [error_propagation] at work: in [world0], which has no pool yet, the
    connection of the tick is refused and the tick ends the process. *)
Lemma error_propagation_witness :
  pool world0 = false ∧
  fault env_no_database (length (trace world0)) ≠ None ∧
  poll_tick env_no_database auth0 folder0 world0 = Exit 1 (log_event EvConnect world0).
Proof.
  split; [reflexivity|]. split; [by vm_compute|].
  apply (error_propagation cfg0 env_no_database auth0 folder0).
  - reflexivity.
  - by vm_compute.
Defined.

(* ===================================================================== *)
(** * The retention sweep                                                 *)
(* ===================================================================== *)

Lemma elem_of_newest_first f l : f ∈ newest_first l ↔ f ∈ l.
Proof. unfold newest_first. by rewrite merge_sort_Permutation. Qed.

Section Sweep.

Variable env : Env.
Variable threshold : Z.

Lemma delete_if_old_step file w :
  delete_if_old env threshold file w =
  if bool_decide (createdTime file < threshold) then
    match fault env (length (trace w)) with
    | Some message => Throw message (log_event (EvFilesDelete (fileId file)) w)
    | None => Ok tt (set_drive (filter (λ f, fileId f ≠ fileId file))
                       (log_event (EvFilesDelete (fileId file)) w))
    end
  else Ok tt w.
Proof.
  unfold delete_if_old, files_delete, extcall. munfold.
  destruct (bool_decide _); [|done]. by destruct (fault env _).
Qed.

Lemma for_of_cons_step file files w :
  for_of (file :: files) (delete_if_old env threshold) w =
  match delete_if_old env threshold file w with
  | Ok _ w' => for_of files (delete_if_old env threshold) w'
  | Throw e w' => Throw e w'
  | Exit c w' => Exit c w'
  end.
Proof. done. Qed.

(** A file survives the loop when no old file of the listing has its id. *)
Lemma sweep_loop_retains files w f :
  f ∈ drive w →
  (∀ g, g ∈ files → createdTime g < threshold → fileId g ≠ fileId f) →
  f ∈ drive (world_of (for_of files (delete_if_old env threshold) w)).
Proof.
  revert w. induction files as [|file files IH]; intros w Hf Hids; [done|].
  rewrite for_of_cons_step, delete_if_old_step.
  assert (∀ g, g ∈ files → createdTime g < threshold → fileId g ≠ fileId f) as Hrest
    by (intros g Hg; apply Hids; by right).
  destruct (bool_decide (createdTime file < threshold)) eqn:Hold; [|by apply IH].
  destruct (fault env _); [done|]. apply IH; [|done].
  simpl. apply list_elem_of_filter. split; [|done].
  intros Heq. apply bool_decide_eq_true in Hold.
  by apply (Hids file (list_elem_of_here _ _) Hold).
Qed.

(** The loop never adds a file. *)
Lemma sweep_loop_subset files w f :
  f ∈ drive (world_of (for_of files (delete_if_old env threshold) w)) → f ∈ drive w.
Proof.
  revert w. induction files as [|file files IH]; intros w; [done|].
  rewrite for_of_cons_step, delete_if_old_step.
  destruct (bool_decide (createdTime file < threshold)); [|apply IH].
  destruct (fault env _); [done|]. intros Hf%IH. simpl in Hf.
  by apply list_elem_of_filter in Hf as [_ Hf].
Qed.

(** When no call fails the loop deletes every old file of the listing. *)
Lemma sweep_loop_deletes files w :
  (∀ n, length (trace w) ≤ n → fault env n = None)%nat →
  ∃ w', for_of files (delete_if_old env threshold) w = Ok tt w' ∧
    drive w' =
    filter (λ f, fileId f ∉ fileId <$> filter (λ g, createdTime g < threshold) files)
      (drive w).
Proof.
  revert w. induction files as [|file files IH]; intros w Hfault.
  - exists w. split; [done|]. simpl. symmetry.
    induction (drive w) as [|x l IHl]; [done|].
    rewrite filter_cons_True, IHl; [done|]. apply not_elem_of_nil.
  - rewrite for_of_cons_step, delete_if_old_step.
    destruct (bool_decide (createdTime file < threshold)) eqn:Hold.
    + apply bool_decide_eq_true in Hold.
      rewrite Hfault by done.
      destruct (IH (set_drive (filter (λ f, fileId f ≠ fileId file))
                      (log_event (EvFilesDelete (fileId file)) w)))
        as (w' & Hloop & Hdrive).
      { intros n Hn. apply Hfault. norm_len_in Hn. lia. }
      exists w'. split; [done|]. rewrite Hdrive. simpl.
      rewrite list_filter_filter, filter_cons_True by done.
      apply list_filter_iff. intros x. rewrite fmap_cons, not_elem_of_cons. tauto.
    + apply bool_decide_eq_false in Hold.
      destruct (IH w Hfault) as (w' & Hloop & Hdrive).
      exists w'. split; [done|]. by rewrite Hdrive, filter_cons_False.
Qed.

(** The loop makes a prefix of the planned deletions: every call before the
    last one succeeded, and the loop throws exactly when the last call it made
    failed. *)
Lemma sweep_loop_trace files w :
  ∃ k, (k ≤ length (planned_deletions threshold files))%nat ∧
    trace (world_of (for_of files (delete_if_old env threshold) w)) =
      trace w ++ take k (planned_deletions threshold files) ∧
    (∀ j, (S j < k)%nat → fault env (length (trace w) + j) = None) ∧
    match for_of files (delete_if_old env threshold) w with
    | Ok _ _ => k = length (planned_deletions threshold files) ∧
                ∀ j, (j < k)%nat → fault env (length (trace w) + j) = None
    | Throw _ _ => (0 < k)%nat ∧ fault env (length (trace w) + (k - 1)) ≠ None
    | Exit _ _ => False
    end.
Proof.
  revert w. induction files as [|file files IH]; intros w.
  - exists 0%nat. simpl. rewrite app_nil_r. repeat split; (done || lia).
  - rewrite for_of_cons_step, delete_if_old_step. unfold planned_deletions.
    destruct (bool_decide (createdTime file < threshold)) eqn:Hold.
    + apply bool_decide_eq_true in Hold. rewrite filter_cons_True, fmap_cons by done.
      fold (planned_deletions threshold files).
      destruct (fault env (length (trace w))) as [message|] eqn:Hfault.
      * exists 1%nat. simpl. rewrite take_0. repeat split; try (done || lia).
        rewrite Nat.add_0_r. congruence.
      * destruct (IH (set_drive (filter (λ f, fileId f ≠ fileId file))
                        (log_event (EvFilesDelete (fileId file)) w)))
          as (k & Hk & Htrace & Hbefore & Hend).
        norm_len_in Htrace. norm_len_in Hbefore. norm_len_in Hend.
        exists (S k). simpl. rewrite Htrace, <- app_assoc. simpl.
        split; [lia|]. split; [done|]. split.
        { intros [|j] Hj; [by rewrite Nat.add_0_r|].
          replace (length (trace w) + S j)%nat with (S (length (trace w)) + j)%nat by lia.
          apply Hbefore. lia. }
        destruct (for_of files (delete_if_old env threshold) _) as [a w'|e w'|c w']; [|clear Hbefore|done].
        -- destruct Hend as [-> Hall]. split; [done|].
           intros [|j] Hj; [by rewrite Nat.add_0_r|].
           replace (length (trace w) + S j)%nat with (S (length (trace w)) + j)%nat by lia.
           apply Hall. lia.
        -- destruct Hend as [Hpos Hlast]. split; [lia|].
           match goal with
           | |- fault env ?a ≠ None =>
               by replace a with (S (length (trace w)) + (k - 1))%nat by lia
           end.
    + apply bool_decide_eq_false in Hold. rewrite filter_cons_False by done.
      apply IH.
Qed.

End Sweep.

(** [deleteOldFiles] is the listing, then the loop, with every error
    swallowed at the end. *)
Lemma deleteOldFiles_unfold env auth folderId w :
  deleteOldFiles env auth folderId w =
  match fault env (length (trace w)) with
  | Some _ => Ok tt (log_event (EvFilesList (QPdfIn folderId)) w)
  | None =>
      match for_of (sweep_listing folderId w)
              (delete_if_old env (oneWeekAgo env (clock env (length (trace w)))))
              (log_event (EvFilesList (QPdfIn folderId)) w) with
      | Throw _ w' => Ok tt w'
      | o => o
      end
  end.
Proof.
  unfold deleteOldFiles, files_list, extcall. munfold.
  by destruct (fault env _).
Qed.

(** What a sweep lists is in the Drive and is what it asked for. *)
Lemma elem_of_sweep_listing folderId w f :
  f ∈ sweep_listing folderId w → f ∈ drive w ∧ matches (QPdfIn folderId) f = true.
Proof.
  unfold sweep_listing. intros Hf%subseteq_take.
  apply elem_of_newest_first, list_elem_of_filter in Hf as [Hq Hf]. by split.
Qed.

(** Every file a sweep may delete is a document of the folder created before
    the threshold. *)
Lemma listed_old_doomed folderId threshold w f :
  f ∈ filter (λ g, createdTime g < threshold) (sweep_listing folderId w) →
  doomed folderId threshold f ∧ f ∈ drive w.
Proof.
  intros [Hold Hf]%list_elem_of_filter.
  apply elem_of_sweep_listing in Hf as [Hf Hq]. by repeat split.
Qed.

(** What a sweep does to the Drive: every file whose id is not the id of an
    old document of its listing is kept, whatever fails; no file is added;
    and when its calls succeed what is left is exactly the rest. *)
Lemma sweep_deletes_old_of_listing env auth folderId w :
  let threshold := oneWeekAgo env (clock env (length (trace w))) in
  let w' := world_of (deleteOldFiles env auth folderId w) in
  let listed_old :=
    filter (λ g, createdTime g < threshold) (sweep_listing folderId w) in
  (∀ f, f ∈ drive w → fileId f ∉ fileId <$> listed_old → f ∈ drive w') ∧
  (∀ f, f ∈ drive w' → f ∈ drive w) ∧
  ((∀ n, (length (trace w) ≤ n)%nat → fault env n = None) →
   drive w' = filter (λ f, fileId f ∉ fileId <$> listed_old) (drive w)).
Proof.
  intros threshold w' listed_old. subst w' listed_old. rewrite deleteOldFiles_unfold.
  fold threshold. split; [|split].
  - intros f Hf Hkeep.
    destruct (fault env (length (trace w))); [done|].
    pose proof (sweep_loop_retains env threshold (sweep_listing folderId w)
                  (log_event (EvFilesList (QPdfIn folderId)) w) f Hf) as Hloop.
    destruct (for_of _ _ _); apply Hloop; intros g Hg Hold Hid;
      (apply Hkeep; rewrite <- Hid; by apply list_elem_of_fmap_2, list_elem_of_filter).
  - intros f.
    destruct (fault env (length (trace w))); [done|].
    pose proof (sweep_loop_subset env threshold (sweep_listing folderId w)
                  (log_event (EvFilesList (QPdfIn folderId)) w) f) as Hloop.
    by destruct (for_of _ _ _).
  - intros Hfault. rewrite (Hfault (length (trace w))) by done.
    destruct (sweep_loop_deletes env threshold (sweep_listing folderId w)
                (log_event (EvFilesList (QPdfIn folderId)) w)) as (w' & -> & Hdrive).
    { intros n Hn. apply Hfault. norm_len_in Hn. lia. }
    exact Hdrive.
Qed.

(** A loop over files none of which is old makes no call. *)
Lemma sweep_loop_none_old env threshold files w :
  Forall (λ f, ¬ createdTime f < threshold) files →
  for_of files (delete_if_old env threshold) w = Ok tt w.
Proof.
  induction 1 as [|file files Hfile _ IH]; [done|].
  rewrite for_of_cons_step, delete_if_old_step.
  by rewrite bool_decide_eq_false_2.
Qed.

(** A sweep whose listing holds no old document makes its listing and
    nothing else. *)
Lemma sweep_lists_only env auth folderId w :
  Forall (λ f, ¬ createdTime f < oneWeekAgo env (clock env (length (trace w))))
    (sweep_listing folderId w) →
  deleteOldFiles env auth folderId w =
  Ok tt (log_event (EvFilesList (QPdfIn folderId)) w).
Proof.
  intros Hyoung. rewrite deleteOldFiles_unfold.
  destruct (fault env (length (trace w))); [done|].
  by rewrite sweep_loop_none_old.
Qed.

(** As long as the first page of the listing holds no old document, no
    number of sweeps changes the Drive. *)
Lemma sweeps_change_nothing env auth folderId k w :
  (∀ n, Forall (λ f, ¬ createdTime f < oneWeekAgo env (clock env n))
          (sweep_listing folderId w)) →
  drive (world_of (sweeps env auth folderId k w)) = drive w.
Proof.
  revert w. induction k as [|k IH]; intros w Hyoung; [done|].
  unfold sweeps in *. simpl. munfold.
  rewrite sweep_lists_only by apply Hyoung.
  by rewrite IH.
Qed.

(* ===================================================================== *)
(** * Claims about the retention sweep                                    *)
(* ===================================================================== *)

(** C4: the code does not do what is claimed.  The sweep makes one listing
    request, which answers the first page of the documents of the folder,
    newest first, and it never asks for the next page.  In a folder with an
    invoice uploaded nine days ago and a hundred uploaded yesterday, the old
    invoice is a document of the folder created before the threshold (here
    now minus seven times 24 hours), it is not on the page, and the sweep
    makes its listing and no deletion; the same holds for every later sweep,
    however many there are.  Where the folder holds less than a page the old
    documents do go: of the four files of [world_sweep] the two old invoices
    are deleted, the invoice created exactly seven days ago and the sheet
    stay. *)
Theorem sweep_misses_old_beyond_first_page :
  let old := pdf_created "old9" 9 in
  let threshold := clock env_ok 0 - 7 * (24 * 60 * 60 * 1000) in
  oneWeekAgo env_ok (clock env_ok 0) = threshold ∧
  drive world_crowded = old :: recent_pdfs ∧ length recent_pdfs = 100%nat ∧
  doomed folder0 threshold old ∧
  new_events (deleteOldFiles env_ok auth0 folder0) world_crowded =
    [EvFilesList (QPdfIn folder0)] ∧
  (∀ k, drive (world_of (sweeps env_ok auth0 folder0 k world_crowded)) =
        drive world_crowded) ∧
  drive (world_of (deleteOldFiles env_ok auth0 folder0 world_sweep)) =
    [pdf_created "week" 7; old_sheet].
Proof.
  assert (∀ n, Forall (λ f, ¬ createdTime f < oneWeekAgo env_ok (clock env_ok n))
                 (sweep_listing folder0 world_crowded)) as Hyoung.
  { intros n. apply (bool_decide_unpack _). by vm_compute. }
  split; [done|]. split; [done|]. split; [done|]. split; [by vm_compute|].
  split; [by rewrite (new_events_app _ _ [EvFilesList (QPdfIn folder0)])
            by (by rewrite sweep_lists_only by apply Hyoung)|].
  split; [intros k; by apply sweeps_change_nothing|].
  by vm_compute.
Qed.

(** C5 fails as stated: with two old invoices in the folder and the first
    deletion failing, the sweep makes no second deletion; both invoices are
    still there when it returns.  With no failure both are deleted. *)
Lemma failed_deletion_ends_sweep :
  new_events (deleteOldFiles env_delete_fails auth0 folder0) world_sweep =
    [EvFilesList (QPdfIn folder0); EvFilesDelete "old8"] ∧
  drive (world_of (deleteOldFiles env_delete_fails auth0 folder0 world_sweep)) =
    drive world_sweep ∧
  new_events (deleteOldFiles env_ok auth0 folder0) world_sweep =
    [EvFilesList (QPdfIn folder0); EvFilesDelete "old8"; EvFilesDelete "old9"].
Proof. by vm_compute. Qed.

(** C5, as the code has it.  A sweep makes a prefix of its planned calls (the
    listing, then one deletion for each old document in the order of the
    listing); every call before the last one it made succeeded; it stops
    short of the plan only when the last call it made failed, so a failed
    deletion is the last call of the sweep; and it returns normally, the
    error caught once around the whole loop. *)
Theorem sweep_stops_at_first_failure env auth folderId w :
  let n := length (trace w) in
  let threshold := oneWeekAgo env (clock env n) in
  let planned := EvFilesList (QPdfIn folderId) ::
                 planned_deletions threshold (sweep_listing folderId w) in
  ∃ w' k,
    deleteOldFiles env auth folderId w = Ok tt w' ∧
    trace w' = trace w ++ take k planned ∧
    (0 < k ≤ length planned)%nat ∧
    (∀ j, (S j < k)%nat → fault env (n + j) = None) ∧
    ((k < length planned)%nat → fault env (n + (k - 1)) ≠ None).
Proof.
  intros n threshold planned. subst n planned.
  rewrite deleteOldFiles_unfold. fold threshold.
  destruct (fault env (length (trace w))) as [message|] eqn:Hlist.
  - exists (log_event (EvFilesList (QPdfIn folderId)) w), 1%nat. simpl. rewrite take_0.
    repeat split; try (done || lia).
    intros _. rewrite Nat.add_0_r. congruence.
  - destruct (sweep_loop_trace env threshold (sweep_listing folderId w)
                (log_event (EvFilesList (QPdfIn folderId)) w))
      as (k & Hk & Htrace & Hbefore & Hend).
    norm_len_in Htrace. norm_len_in Hbefore. norm_len_in Hend.
    assert (∀ j, (S j < S k)%nat → fault env (length (trace w) + j) = None) as Hbefore'.
    { intros [|j] Hj; [by rewrite Nat.add_0_r|].
      replace (length (trace w) + S j)%nat with (S (length (trace w)) + j)%nat by lia.
      apply Hbefore. lia. }
    destruct (for_of _ _ _) as [[] w'|e w'|c w']; [| |done];
      exists w', (S k); simpl in *; rewrite Htrace, <- app_assoc;
      (split; [done|]); (split; [done|]); (split; [lia|]); (split; [done|]).
    + destruct Hend as [-> _]. lia.
    + destruct Hend as [Hpos Hlast]. intros _.
      match goal with
      | |- fault env ?a ≠ None =>
          by replace a with (S (length (trace w)) + (k - 1))%nat by lia
      end.
Qed.

(* ===================================================================== *)
(** * Claims about the credential                                         *)
(* ===================================================================== *)

(** C9 fails as stated: with a token file that holds a refresh token and a
    refresh refused with [invalid_grant], [authorize] does not fail: it goes
    on to the manual authentication in the same call (the question, the code
    exchange, the token file rewritten) and returns the client. *)
Lemma invalid_grant_reaches_manual_authentication :
  is_ok (authorize cfg0 env_invalid_grant world0) = true ∧
  trace (world_of (authorize cfg0 env_invalid_grant world0)) =
    [EvGetAccessToken; EvQuestion; EvGetToken "4/code";
     EvWriteFile "token.json" (FToken tokens1)] ∧
  fs (world_of (authorize cfg0 env_invalid_grant world0)) !! "token.json" =
    Some (FToken tokens1).
Proof. by vm_compute. Qed.

(** The manual authentication always asks the operator for a code and sends
    it to the exchange. *)
Lemma manual_authentication_asks cfg env client w :
  ∃ rest,
    trace (world_of (manual_authentication cfg env client w)) =
    trace w ++ EvQuestion :: EvGetToken (typed_code env (length (trace w))) :: rest.
Proof.
  unfold manual_authentication, write_file, extcall. munfold. cbn.
  repeat match goal with
         | |- context [fault env ?n] => destruct (fault env n); cbn
         | |- context [no_refresh_token ?t] => destruct (no_refresh_token t); cbn
         end;
    rewrite <- ?app_assoc; cbn; by eexists.
Qed.

(** C9, as the code has it.  With a token file that holds a refresh token,
    when the refresh at the start fails with a message that contains
    [invalid_grant], the error thrown for it is caught inside [authorize],
    which goes on in the same call as if there were no token file: from there
    on it is the manual authentication, run by a client without credentials.
    The operator is asked for a code and the code is exchanged; [authorize]
    fails only if that fails. *)
Theorem invalid_grant_falls_through cfg env w installed token message :
  fs w !! CREDENTIALS_PATH cfg = Some (FClientSecret installed) →
  fs w !! TOKEN_PATH cfg = Some (FToken token) →
  no_refresh_token token = false →
  fault env (length (trace w)) = Some message →
  Js.includes "invalid_grant" message = true →
  let client := new_OAuth2 (client_id installed) (client_secret installed)
                  (head (redirect_uris installed)) in
  let w1 := log_event EvGetAccessToken w in
  authorize cfg env w = manual_authentication cfg env client w1 ∧
  ∃ rest,
    trace (world_of (authorize cfg env w)) =
    trace w ++ EvGetAccessToken :: EvQuestion ::
      EvGetToken (typed_code env (S (length (trace w)))) :: rest.
Proof.
  intros Hsecret Htoken Hrefresh Hfault Hgrant client w1.
  assert (authorize cfg env w = manual_authentication cfg env client w1) as Heq.
  { unfold authorize, read_installed, use_token_file, getAccessToken, read_token, extcall.
    munfold. rewrite Hsecret.
    rewrite bool_decide_eq_true_2 by eauto. cbv beta iota. rewrite Hsecret.
    cbv beta iota. rewrite Htoken.
    rewrite bool_decide_eq_true_2 by eauto. cbv beta iota. rewrite Htoken, Hrefresh.
    cbv beta iota. rewrite Hfault. cbv beta iota. rewrite Hgrant.
    fold client. fold w1.
    by destruct (manual_authentication cfg env client w1). }
  split; [done|]. rewrite Heq.
  destruct (manual_authentication_asks cfg env client w1) as (rest & ->).
  exists rest. subst w1. norm_len. by rewrite <- app_assoc.
Qed.

(** [invalid_grant_falls_through] at work, for the token file of [world0]. *)
Lemma invalid_grant_falls_through_witness :
  authorize cfg0 env_invalid_grant world0 =
  manual_authentication cfg0 env_invalid_grant
    (new_OAuth2 "client" "secret" (Some "http://localhost"))
    (log_event EvGetAccessToken world0).
Proof.
  apply (invalid_grant_falls_through cfg0 env_invalid_grant world0 installed0 tokens0
           "invalid_grant: Token has been expired or revoked.");
    by vm_compute.
Defined.

(** The listener of the branch that found a token file writes the tokens of
    the refresh over the token read at the start: the members the refresh
    does not have keep their value. *)
Lemma listener_loaded_merges cfg env token tokens w :
  fault env (length (trace w)) = None →
  ∃ w', listener_loaded cfg env token tokens w = Ok tt w' ∧
    fs w' !! TOKEN_PATH cfg = Some (FToken (tokens ∪ token)) ∧
    ∀ k, tokens !! k = None → (tokens ∪ token) !! k = token !! k.
Proof.
  intros Hfault. unfold listener_loaded, write_file, extcall. munfold.
  rewrite Hfault. eexists. split; [done|]. split.
  - simpl. apply lookup_insert_eq.
  - intros k Hk. by rewrite lookup_union_r.
Qed.

(** The listener registered after the manual authentication writes the tokens
    of the refresh alone. *)
Lemma listener_manual_replaces cfg env tokens w :
  fault env (length (trace w)) = None →
  ∃ w', listener_manual cfg env tokens w = Ok tt w' ∧
    fs w' !! TOKEN_PATH cfg = Some (FToken tokens).
Proof.
  intros Hfault. unfold listener_manual, write_file, extcall. munfold.
  rewrite Hfault. eexists. split; [done|]. simpl. apply lookup_insert_eq.
Qed.

(** [authorize] on a first run: no token file, the exchange answers tokens
    with a refresh token and the file is written. *)
Lemma authorize_manual_path cfg env w installed :
  fs w !! CREDENTIALS_PATH cfg = Some (FClientSecret installed) →
  fs w !! TOKEN_PATH cfg = None →
  fault env (S (length (trace w))) = None →
  no_refresh_token (exchanged env (S (length (trace w)))) = false →
  fault env (S (S (length (trace w)))) = None →
  let tokens := exchanged env (S (length (trace w))) in
  authorize cfg env w =
  Ok (on_tokens (listener_manual cfg env)
        (setCredentials tokens
           (new_OAuth2 (client_id installed) (client_secret installed)
              (head (redirect_uris installed)))))
     (set_fs (insert (TOKEN_PATH cfg) (FToken tokens))
        (log_event (EvWriteFile (TOKEN_PATH cfg) (FToken tokens))
           (log_event (EvGetToken (typed_code env (length (trace w))))
              (log_event EvQuestion w)))).
Proof.
  intros Hsecret Htoken Hexchange Hrefresh Hwrite tokens. subst tokens.
  unfold authorize, read_installed, manual_authentication, write_file, extcall.
  munfold. rewrite Hsecret.
  rewrite bool_decide_eq_true_2 by eauto. cbv beta iota. rewrite Hsecret.
  cbv beta iota. rewrite Htoken.
  rewrite bool_decide_eq_false_2 by (by intros [? ?]). cbv beta iota.
  norm_len. rewrite Hexchange. cbv beta iota. rewrite Hrefresh.
  norm_len. by rewrite Hwrite.
Qed.

(** [authorize] when the token file holds a refresh token and the call of
    [getAccessToken] at the start succeeds: the client has the credentials of
    the token file, or those of the refresh when the call made one. *)
Lemma authorize_loaded_path cfg env w installed token :
  fs w !! CREDENTIALS_PATH cfg = Some (FClientSecret installed) →
  fs w !! TOKEN_PATH cfg = Some (FToken token) →
  no_refresh_token token = false →
  fault env (length (trace w)) = None →
  authorize cfg env w =
  Ok (on_tokens (listener_loaded cfg env token)
        (setCredentials
           (default token (refreshed_credentials env (length (trace w))))
           (new_OAuth2 (client_id installed) (client_secret installed)
              (head (redirect_uris installed)))))
     (log_event EvGetAccessToken w).
Proof.
  intros Hsecret Htoken Hrefresh Hfault.
  unfold authorize, read_installed, use_token_file, getAccessToken, read_token, extcall.
  munfold. rewrite Hsecret.
  rewrite bool_decide_eq_true_2 by eauto. cbv beta iota. rewrite Hsecret.
  cbv beta iota. rewrite Htoken.
  rewrite bool_decide_eq_true_2 by eauto. cbv beta iota. rewrite Htoken, Hrefresh.
  cbv beta iota. rewrite Hfault. cbv beta iota.
  by destruct (refreshed_credentials env (length (trace w))).
Qed.

Lemma emit_tokens_one (c : OAuth2Client) l tokens w :
  tokens_listeners c = [] →
  (∃ w', l tokens w = Ok tt w') →
  emit_tokens (on_tokens l c) tokens w = l tokens w.
Proof.
  intros Hnone (w' & Hl). unfold emit_tokens, on_tokens. simpl. rewrite Hnone. simpl.
  munfold. by rewrite Hl.
Qed.

(** C8, on the code.  After the manual authentication the token file holds
    the access token and the refresh token [r0].  The first refresh after
    that, which carries no refresh token, leaves a token file with the
    members of the refresh only: the refresh token is gone, and the next
    start finds the file without it.  In the branch that found a token file
    the same refresh keeps [r0]. *)
Theorem manual_path_refresh_drops_refresh_token :
  (∃ client w1 w2,
     authorize cfg0 env_ok world_first_run = Ok client w1 ∧
     fs w1 !! "token.json" = Some (FToken tokens0) ∧
     tokens0 !! "refresh_token" = Some "r0" ∧
     emit_tokens client refreshed w1 = Ok tt w2 ∧
     fs w2 !! "token.json" = Some (FToken refreshed) ∧
     refreshed !! "refresh_token" = None ∧
     read_token cfg0 w2 = Throw "Missing refresh_token" w2) ∧
  (∃ client w1 w2,
     authorize cfg0 env_ok world0 = Ok client w1 ∧
     emit_tokens client refreshed w1 = Ok tt w2 ∧
     fs w2 !! "token.json" = Some (FToken (refreshed ∪ tokens0)) ∧
     (refreshed ∪ tokens0) !! "refresh_token" = Some "r0").
Proof.
  split.
  - pose proof (authorize_manual_path cfg0 env_ok world_first_run installed0) as Hauth.
    cbv zeta in Hauth.
    match type of Hauth with
    | _ → _ → _ → _ → _ → _ = Ok ?c ?w1 =>
        destruct (listener_manual_replaces cfg0 env_ok refreshed w1) as (w2 & Hemit & Hfs);
          [done|];
        exists c, w1, w2
    end.
    split; [by apply Hauth|]. split; [by vm_compute|]. split; [by vm_compute|].
    split; [by rewrite emit_tokens_one by eauto|]. split; [done|]. split; [by vm_compute|].
    unfold read_token. munfold. change (TOKEN_PATH cfg0) with "token.json" in Hfs |- *.
    by rewrite Hfs.
  - pose proof (authorize_loaded_path cfg0 env_ok world0 installed0 tokens0) as Hauth.
    match type of Hauth with
    | _ → _ → _ → _ → _ = Ok ?c ?w1 =>
        destruct (listener_loaded_merges cfg0 env_ok tokens0 refreshed w1)
          as (w2 & Hemit & Hfs & _); [done|];
        exists c, w1, w2
    end.
    split; [by apply Hauth|]. split; [by rewrite emit_tokens_one by eauto|].
    split; [done|]. by vm_compute.
Qed.

(* ===================================================================== *)
(** * The claims at concrete inputs                                       *)
(* ===================================================================== *)

(** C6 fails as stated: for the answer [ERR:Invalid number], [sendSMS]
    returns normally, with no value and no error, exactly as it does when the
    message is accepted; the detail reaches nobody.  And the first token is
    trimmed before it is compared: the answer [OK :12345], whose first token
    is [OK] followed by a space, is logged too. *)
Lemma rejected_answer_returns_normally :
  (∃ w', sendSMS env_rejected "0771234567" "C001" "https://l" world1 = Ok tt w' ∧
         tb_SMS_LOG w' = []) ∧
  (∀ detail w', sendSMS env_rejected "0771234567" "C001" "https://l" world1 ≠
                Throw detail w') ∧
  head (Js.split ":" "OK :12345") = Some "OK " ∧
  tb_SMS_LOG (world_of (sendSMS env_spaced "0771234567" "C001" "https://l" world1)) =
    [log_record profile1 "0771234567" "C001" "https://l"].
Proof.
  split; [|split; [|split]].
  - eexists. split; [vm_compute; reflexivity|done].
  - intros detail w'. by vm_compute.
  - done.
  - by vm_compute.
Qed.

(** [gateway_answer_decides_log] at work: the answer [OK:12345] puts the row
    in the log. *)
Lemma gateway_answer_witness :
  tb_SMS_LOG (world_of (sendSMS env_ok "0771234567" "C001" "https://l" world1)) =
  [log_record profile1 "0771234567" "C001" "https://l"].
Proof.
  destruct (gateway_answer_decides_log env_ok "0771234567" "C001" "https://l" world1
              profile1 [] eq_refl eq_refl eq_refl eq_refl eq_refl)
    as (w' & -> & Hok & _).
  destruct Hok as (_ & Hlog & _); [by vm_compute|].
  simpl. by rewrite Hlog.
Defined.

(** [phone_validation] at work on the three inputs of the specification. *)
Lemma phone_validation_witness :
  customerPhone_of ("94" +:+ "771234567") = Some ("0" +:+ "771234567") ∧
  customerPhone_of ("0" +:+ "771234567") = Some ("0" +:+ "771234567") ∧
  poll_row env_ok auth0 folder0
    {| IDX := 3; CUSTOMERID := "C003"; MOBILENO := "123"; FILENAME := "inv3.pdf";
       PDFDATA := []; DOWNLOAD := "F" |} world1 = Ok tt world1.
Proof.
  destruct phone_validation as (H94 & H0 & Hother & _).
  split; [apply H94; by vm_compute|]. split; [apply H0; by vm_compute|].
  apply (Hother "123"); [|done].
  intros rest _. split; intros Heq; vm_compute in Heq; discriminate.
Defined.

(** [notified_phone_is_local] at work: the tick of [world1] calls [sendSMS]
    for the first row with the number in local form. *)
Lemma notified_phone_witness :
  EvSendSMS "0771234567" "C001" (fresh_link env_ok 1)
    ∈ new_events (poll_tick env_ok auth0 folder0) world1 ∧
  local_form "0771234567".
Proof.
  assert (EvSendSMS "0771234567" "C001" (fresh_link env_ok 1)
            ∈ new_events (poll_tick env_ok auth0 folder0) world1) as Hin.
  { vm_compute. repeat constructor. }
  split; [exact Hin|].
  exact (notified_phone_is_local env_ok auth0 folder0 world1 _ _ _ Hin).
Defined.

(** [upload_marked_before_notification] at work on the first row of
    [world1]. *)
Lemma upload_marked_witness :
  uploaded 1 (marked env_ok folder0 row1 world1) ∧
  ∃ w', poll_row env_ok auth0 folder0 row1 world1 = Ok tt w' ∧ uploaded 1 w'.
Proof.
  destruct (upload_marked_before_notification env_ok auth0 folder0 row1 "0771234567"
              world1 eq_refl eq_refl eq_refl eq_refl) as [_ Hmarked].
  destruct (Hmarked eq_refl) as (_ & Hup & _ & w' & tail & Hrow & _ & _ & _ & _ & Hup' & _).
  split; [exact Hup|]. exists w'. by split.
Defined.

(** [suppressed_customer_not_notified] at work on the second row of [world1],
    whose customer has [SMARTINVOICE_ACTIVE = 'F']. *)
Lemma suppressed_customer_witness :
  suppressed "C002" world1 ∧
  ∃ w', poll_row env_ok auth0 folder0 row2 world1 = Ok tt w' ∧
        tb_SMS_LOG w' = [] ∧ uploaded 2 w'.
Proof.
  assert (suppressed "C002" world1) as Hsup by (by vm_compute).
  split; [exact Hsup|].
  destruct (suppressed_customer_not_notified env_ok auth0 folder0) as [_ Hrow].
  destruct (Hrow row2 "0771234567" world1 eq_refl eq_refl Hsup eq_refl eq_refl eq_refl)
    as (w' & Hok & _ & Hlog & Hup & _).
  exists w'. by repeat split.
Defined.

(* ===================================================================== *)
(** * The calls of a tick                                                 *)
(* ===================================================================== *)

(** [sendSMS] with a pool: it returns normally and its events are a prefix,
    of at least two, of its four. *)
Lemma sendSMS_calls env phone customerID link w :
  pool w = true →
  ∃ w' k r0,
    sendSMS env phone customerID link w = Ok tt w' ∧ pool w' = true ∧
    (2 ≤ k)%nat ∧
    trace w' = trace w ++ take k (notify_calls r0 phone customerID link).
Proof.
  intros Hpool.
  unfold sendSMS, connectToDatabase, select_profile, axios_get, insert_log, extcall.
  munfold. cbn -[Js.escape Js.trim Js.split]. rewrite Hpool.
  destruct (fault env _).
  { eexists _, 2%nat, no_profile. split; [reflexivity|].
    cbn. rewrite <- app_assoc. by repeat split. }
  cbn -[Js.escape Js.trim Js.split].
  destruct (filter _ _) as [|r0 rest].
  { eexists _, 2%nat, no_profile. split; [reflexivity|].
    cbn. rewrite <- app_assoc. by repeat split. }
  destruct (decide _).
  2:{ eexists _, 2%nat, no_profile. split; [reflexivity|].
    cbn. rewrite <- app_assoc. by repeat split. }
  cbn -[Js.escape Js.trim Js.split].
  destruct (fault env _).
  { eexists _, 3%nat, r0. split; [reflexivity|].
    cbn -[Js.escape Js.trim Js.split]. rewrite <- !app_assoc. repeat split; (done || lia). }
  cbn -[Js.escape Js.trim Js.split].
  destruct (decide _).
  2:{ eexists _, 3%nat, r0. split; [reflexivity|].
    cbn -[Js.escape Js.trim Js.split]. rewrite <- !app_assoc. repeat split; (done || lia). }
  cbn -[Js.escape Js.trim Js.split].
  destruct (fault env _);
    (eexists _, 4%nat, r0; split; [reflexivity|];
     cbn -[Js.escape Js.trim Js.split]; rewrite <- !app_assoc; repeat split; (done || lia)).
Qed.

Lemma poll_row_segment env auth folderId row w :
  pool w = true →
  ∃ w' seg,
    poll_row env auth folderId row w = Ok tt w' ∧ pool w' = true ∧
    trace w' = trace w ++ seg ∧ row_segment folderId row seg.
Proof.
  intros Hpool. unfold poll_row, row_segment.
  destruct (customerPhone_of (MOBILENO row)) as [phone|].
  2:{ exists w, []. by rewrite app_nil_r. }
  unfold uploadToDrive, files_create, permissions_create, update_download, extcall.
  munfold. cbn -[sendSMS].
  destruct (fault env _).
  { eexists _, _. split; [reflexivity|]. split; [done|]. split; [reflexivity|].
    exists 1%nat, "", "", no_profile. by split; [lia|]. }
  cbn -[sendSMS]. destruct (fault env _).
  { eexists _, _. split; [reflexivity|]. split; [done|]. cbn. rewrite <- app_assoc.
    split; [reflexivity|]. eexists 2%nat, _, "", no_profile. by split; [lia|]. }
  cbn -[sendSMS]. destruct (fault env _).
  { eexists _, _. split; [reflexivity|]. split; [done|]. cbn. rewrite <- !app_assoc.
    split; [reflexivity|]. eexists 3%nat, _, "", no_profile. by split; [lia|]. }
  cbn -[sendSMS].
  match goal with
  | |- context [sendSMS env ?p ?c ?l ?w1] =>
      destruct (sendSMS_calls env p c l w1) as (w' & k & r0 & -> & Hp & Hk & Htrace); [done|]
  end.
  exists w'. eexists. split; [done|]. split; [done|].
  rewrite Htrace. cbn. rewrite <- !app_assoc. split; [reflexivity|].
  eexists (3 + k)%nat, _, _, r0. split; [lia|]. reflexivity.
Qed.

Lemma poll_rows_segments env auth folderId rows w :
  pool w = true →
  ∃ w' segs,
    poll_rows env auth folderId rows w = Ok tt w' ∧ pool w' = true ∧
    trace w' = trace w ++ concat segs ∧ Forall2 (row_segment folderId) rows segs.
Proof.
  revert w. induction rows as [|row rows IH]; intros w Hpool.
  - exists w, []. simpl. by rewrite app_nil_r.
  - destruct (poll_row_segment env auth folderId row w Hpool)
      as (w0 & seg & Hrow & Hpool0 & Htrace0 & Hseg).
    destruct (IH w0 Hpool0) as (w' & segs & Hrows & Hpool' & Htrace & Hsegs).
    exists w', (seg :: segs). unfold poll_rows in *. simpl. munfold. rewrite Hrow.
    split; [done|]. split; [done|]. split; [|by constructor].
    by rewrite Htrace, Htrace0, <- app_assoc.
Qed.

Lemma poll_tick_segments env auth folderId w :
  pool w = true →
  ∃ w' segs,
    poll_tick env auth folderId w = Ok tt w' ∧ pool w' = true ∧
    trace w' = trace w ++ EvSelectPending :: concat segs ∧
    match fault env (length (trace w)) with
    | Some _ => segs = []
    | None => Forall2 (row_segment folderId) (pending w) segs
    end.
Proof.
  intros Hpool. unfold poll_tick, connectToDatabase, select_pending, extcall.
  munfold. rewrite Hpool.
  destruct (fault env (length (trace w))).
  { eexists _, []. by repeat split. }
  cbv beta iota.
  destruct (poll_rows_segments env auth folderId (pending (log_event EvSelectPending w))
              (log_event EvSelectPending w)) as (w' & segs & Hrows & Hpool' & Htrace & Hsegs);
    [done|].
  exists w', segs. unfold pending in *. rewrite Hrows.
  split; [done|]. split; [done|]. split; [|done].
  rewrite Htrace. simpl. by rewrite <- app_assoc.
Qed.

(** X1. The calls of one tick, once the pool exists: the SELECT of the
    pending rows and then, row by row in the order of the recordset, nothing
    for a row whose phone number is not valid and otherwise a non-empty
    prefix of: create the file, share it, UPDATE the row, enter [sendSMS],
    SELECT the profile, GET the gateway, INSERT the log row.  A failure ends
    the calls of its row only; the next row starts with its own upload.  When
    the SELECT fails the tick makes no other call.  The tick returns normally
    and the pool is kept. *)
Theorem tick_call_structure env auth folderId w :
  pool w = true →
  ∃ w' segs,
    poll_tick env auth folderId w = Ok tt w' ∧ pool w' = true ∧
    trace w' = trace w ++ EvSelectPending :: concat segs ∧
    match fault env (length (trace w)) with
    | Some _ => segs = []
    | None => Forall2 (row_segment folderId) (pending w) segs
    end.
Proof. apply poll_tick_segments. Qed.

Lemma row_segment_no_connect folderId row seg :
  row_segment folderId row seg → Forall (λ e, e ≠ EvConnect) seg.
Proof.
  unfold row_segment. destruct (customerPhone_of _); [|by intros ->].
  intros (k & fileid & link & r0 & _ & ->). apply Forall_take.
  by repeat constructor.
Qed.

Lemma poll_tick_no_connect env auth folderId w :
  pool w = true →
  pool (world_of (poll_tick env auth folderId w)) = true ∧
  Forall (λ e, e ≠ EvConnect) (new_events (poll_tick env auth folderId) w).
Proof.
  intros Hpool.
  destruct (poll_tick_segments env auth folderId w Hpool)
    as (w' & segs & Htick & Hpool' & Htrace & Hsegs).
  assert (new_events (poll_tick env auth folderId) w = EvSelectPending :: concat segs)
    as -> by (apply new_events_app; by rewrite Htick).
  rewrite Htick. split; [done|].
  constructor; [done|]. apply Forall_concat.
  destruct (fault env _); [by subst|].
  clear Htrace. induction Hsegs; constructor; eauto using row_segment_no_connect.
Qed.

Lemma poll_ticks_no_connect env auth folderId k w :
  pool w = true →
  ∃ w' seg, poll_ticks env auth folderId k w = Ok tt w' ∧ pool w' = true ∧
    trace w' = trace w ++ seg ∧ Forall (λ e, e ≠ EvConnect) seg.
Proof.
  revert w. induction k as [|k IH]; intros w Hpool.
  - exists w, []. by rewrite app_nil_r.
  - destruct (poll_tick_segments env auth folderId w Hpool)
      as (w0 & segs & Htick & Hpool0 & Htrace0 & Hsegs).
    pose proof (poll_tick_no_connect env auth folderId w Hpool) as [_ Hno].
    assert (new_events (poll_tick env auth folderId) w = EvSelectPending :: concat segs)
      as Hnew by (apply new_events_app; by rewrite Htick).
    rewrite Hnew in Hno.
    destruct (IH w0 Hpool0) as (w' & seg & Hticks & Hpool' & Htrace & Hseg).
    exists w'. eexists. unfold poll_ticks in *. simpl. munfold. rewrite Htick.
    split; [done|]. split; [done|]. rewrite Htrace, Htrace0, <- app_assoc.
    split; [reflexivity|]. by apply Forall_app.
Qed.

(** X2. The pool is made once.  With a pool, no number of ticks calls
    [mssql.connect] again, whatever fails in them (the calls of [sendSMS]
    included, which asks for the pool itself).  Without a pool the first tick
    connects before anything else, and when that succeeds no later call is a
    connection. *)
Theorem connection_made_once env auth folderId k w :
  (pool w = true →
   Forall (λ e, e ≠ EvConnect) (new_events (poll_ticks env auth folderId k) w)) ∧
  (pool w = false → fault env (length (trace w)) = None →
   ∃ rest, new_events (poll_ticks env auth folderId (S k)) w = EvConnect :: rest ∧
           Forall (λ e, e ≠ EvConnect) rest).
Proof.
  split.
  - intros Hpool.
    destruct (poll_ticks_no_connect env auth folderId k w Hpool) as (w' & seg & Ht & _ & Htr & Hs).
    assert (new_events (poll_ticks env auth folderId k) w = seg)
      as -> by (apply new_events_app; by rewrite Ht).
    done.
  - intros Hpool Hconnect.
    set (w0 := set_pool true (log_event EvConnect w)).
    assert (poll_tick env auth folderId w =
            match poll_tick env auth folderId w0 with
            | Ok a w' => Ok a w' | Throw e w' => Throw e w' | Exit c w' => Exit c w' end) as Hfirst.
    { unfold poll_tick, connectToDatabase, mssql_connect, extcall. munfold.
      rewrite Hpool, Hconnect. subst w0. cbn [pool set_pool].
      by destruct (select_pending env _) as [rows w1|? ?|? ?];
        [destruct (poll_rows _ _ _ _ _)|..]. }
    destruct (poll_ticks_no_connect env auth folderId (S k) w0) as (w' & seg & Ht & _ & Htr & Hs);
      [done|].
    exists seg. split; [|done]. apply new_events_app.
    unfold poll_ticks in *. simpl in *. munfold. rewrite Hfirst.
    destruct (poll_tick env auth folderId w0) as [[] w1|? ?|? ?]; try done.
    rewrite Ht. simpl. rewrite Htr. subst w0. simpl. by rewrite <- app_assoc.
Qed.

Lemma poll_rows_all_invalid env auth folderId rows w :
  (∀ r, r ∈ rows → customerPhone_of (MOBILENO r) = None) →
  poll_rows env auth folderId rows w = Ok tt w.
Proof.
  induction rows as [|row rows IH]; intros Hrows; [done|].
  unfold poll_rows in *. simpl. munfold.
  unfold poll_row at 1. munfold. rewrite (Hrows row) by left.
  apply IH. intros r Hr. apply Hrows. by right.
Qed.

Lemma poll_tick_all_invalid env auth folderId w :
  pool w = true →
  (∀ r, r ∈ pending w → customerPhone_of (MOBILENO r) = None) →
  poll_tick env auth folderId w = Ok tt (log_event EvSelectPending w).
Proof.
  intros Hpool Hrows. unfold poll_tick, connectToDatabase, select_pending, extcall.
  munfold. rewrite Hpool. destruct (fault env _); [done|]. cbv beta iota.
  by rewrite poll_rows_all_invalid.
Qed.

(** X3. Rows whose phone number is not valid are skipped, not settled: when
    every pending row has such a number, each tick makes its SELECT and
    nothing else (no upload, no UPDATE, no message), the rows are pending as
    before, and every later tick reads and skips them again. *)
Theorem invalid_phones_stay_pending env auth folderId k w :
  pool w = true →
  (∀ r, r ∈ pending w → customerPhone_of (MOBILENO r) = None) →
  ∃ w', poll_ticks env auth folderId k w = Ok tt w' ∧
    trace w' = trace w ++ replicate k EvSelectPending ∧
    tb_SMART_INVOICE w' = tb_SMART_INVOICE w ∧ pending w' = pending w ∧
    tb_SMS_LOG w' = tb_SMS_LOG w ∧ drive w' = drive w.
Proof.
  revert w. induction k as [|k IH]; intros w Hpool Hrows.
  - exists w. simpl. by rewrite app_nil_r.
  - destruct (IH (log_event EvSelectPending w)) as (w' & Hticks & Htrace & Htb & Hp & Hlog & Hd);
      [done..|].
    exists w'. unfold poll_ticks in *. simpl. munfold.
    rewrite poll_tick_all_invalid by done. split; [done|].
    rewrite Htrace. simpl. rewrite <- app_assoc. by repeat split.
Qed.

(** X4. A phone number the loop accepted is accepted again as it is: the
    validation of lines 333-341 maps its own result to itself. *)
Theorem normalised_phone_is_fixed raw phone :
  customerPhone_of raw = Some phone → customerPhone_of phone = Some phone.
Proof.
  intros Hraw. apply customerPhone_of_local in Hraw as (rest & -> & Hrest).
  unfold customerPhone_of.
  assert (test_94_9digits ("0" +:+ rest) = false) as -> by done.
  assert (test_0_9digits ("0" +:+ rest) = true) as ->; [|done].
  apply test_0_9digits_spec. by exists rest.
Qed.

(* ===================================================================== *)
(** * What the ticks keep of the tables and of the Drive                  *)
(* ===================================================================== *)

Lemma same_or_marked_step idx r r' :
  same_or_marked r r' → same_or_marked r (mark_downloaded idx r').
Proof.
  intros [->| ->]; unfold same_or_marked.
  - unfold mark_downloaded. destruct (decide (IDX r = idx)) as [<-|]; [|by left].
    right. by rewrite decide_True.
  - right. unfold mark_downloaded. rewrite (decide_True (P := IDX r = IDX r)) by done.
    cbn. by destruct (decide (IDX r = idx)).
Qed.

Lemma same_or_marked_invariant table :
  Invariant (λ _, True) (λ w, Forall2 same_or_marked table (tb_SMART_INVOICE w)).
Proof.
  split; try done.
  intros idx w Hw. simpl. apply Forall2_fmap_r.
  eapply Forall2_impl; [exact Hw|]. intros r r'. apply same_or_marked_step.
Qed.

(** X5. All a tick ever does to [tb_SMART_INVOICE] is to set [DOWNLOAD] to
    ['T']: after any number of ticks, whatever failed, the table has the same
    rows in the same order, each one as it was or as it was with [DOWNLOAD]
    set.  No row is added or removed and no other column changes. *)
Theorem ticks_only_set_download env auth folderId k w :
  Forall2 same_or_marked (tb_SMART_INVOICE w)
    (tb_SMART_INVOICE (world_of (poll_ticks env auth folderId k w))).
Proof.
  apply (preserves_for_of (λ w', Forall2 same_or_marked (tb_SMART_INVOICE w)
                                   (tb_SMART_INVOICE w'))).
  - intros _ _. by apply (keeps_poll_tick env _ _ (same_or_marked_invariant _)).
  - apply Forall2_same_length_lookup_2; [done|]. intros i r r' Hr Hr'. left. congruence.
Qed.

Lemma grown_from_refl l : grown_from l l.
Proof.
  exists l, []. split; [by rewrite app_nil_r|].
  apply Forall2_same_length_lookup_2; [done|]. intros i f f' Hf Hf'. left. congruence.
Qed.

Lemma same_or_shared_share i f f' :
  same_or_shared f f' → same_or_shared f (share i f').
Proof.
  intros [->| ->]; unfold same_or_shared, share.
  - destruct (decide (fileId f = i)) as [<-|]; [|by left].
    right. by rewrite decide_True.
  - right. rewrite (decide_True (P := fileId f = fileId f)) by done.
    cbn. by destruct (decide (fileId f = i)).
Qed.

Lemma grown_from_share i old new :
  grown_from old new → grown_from old (share i <$> new).
Proof.
  intros (kept & added & -> & Hkept).
  exists (share i <$> kept), (share i <$> added). split; [by rewrite fmap_app|].
  apply Forall2_fmap_r. eapply Forall2_impl; [exact Hkept|].
  intros f f'. apply same_or_shared_share.
Qed.

Lemma grown_from_added f old new :
  grown_from old new → grown_from old (new ++ [f]).
Proof.
  intros (kept & added & -> & Hkept).
  exists kept, (added ++ [f]). by rewrite app_assoc.
Qed.

Lemma poll_row_grows env auth folderId row old w :
  pool w = true → grown_from old (drive w) →
  ∃ w', poll_row env auth folderId row w = Ok tt w' ∧ pool w' = true ∧
        grown_from old (drive w').
Proof.
  intros Hpool Hold. unfold poll_row.
  destruct (customerPhone_of (MOBILENO row)) as [phone|]; [|by exists w].
  unfold uploadToDrive, files_create, permissions_create, update_download, extcall.
  munfold. cbn -[sendSMS].
  destruct (fault env _); cbn -[sendSMS]; [by eexists|].
  destruct (fault env _); cbn -[sendSMS].
  { eexists. split; [done|]. split; [done|]. by apply grown_from_added. }
  destruct (fault env _); cbn -[sendSMS].
  { eexists. split; [done|]. split; [done|]. by apply grown_from_share, grown_from_added. }
  match goal with
  | |- context [sendSMS env ?p ?c ?l ?w1] =>
      destruct (sendSMS_frame env p c l w1) as (w' & tail & -> & ? & _ & _ & Hdrive & _);
        [done|]
  end.
  exists w'. split; [done|]. split; [done|]. rewrite Hdrive. cbn.
  by apply grown_from_share, grown_from_added.
Qed.

Lemma poll_rows_grows env auth folderId rows old w :
  pool w = true → grown_from old (drive w) →
  ∃ w', poll_rows env auth folderId rows w = Ok tt w' ∧ pool w' = true ∧
        grown_from old (drive w').
Proof.
  revert w. induction rows as [|row rows IH]; intros w Hpool Hold; [by exists w|].
  destruct (poll_row_grows env auth folderId row old w Hpool Hold) as (w0 & Hrow & Hpool0 & Hold0).
  destruct (IH w0 Hpool0 Hold0) as (w' & Hrows & ?).
  exists w'. unfold poll_rows in *. simpl. munfold. by rewrite Hrow.
Qed.

Lemma poll_tick_grows env auth folderId old :
  preserves (λ w, grown_from old (drive w)) (poll_tick env auth folderId).
Proof.
  intros w Hold.
  unfold poll_tick, connectToDatabase, mssql_connect, select_pending, extcall. munfold.
  destruct (pool w) eqn:Hpool.
  - destruct (fault env _); [done|]. cbv beta iota.
    match goal with
    | |- context [poll_rows env auth folderId ?rows ?w0] =>
        destruct (poll_rows_grows env auth folderId rows old w0) as (w' & -> & _ & Hold');
          done
    end.
  - destruct (fault env (length (trace w))); [done|]. cbv beta iota.
    match goal with
    | |- context [fault env ?n] => destruct (fault env n); [done|]
    end.
    cbv beta iota.
    match goal with
    | |- context [poll_rows env auth folderId ?rows ?w0] =>
        destruct (poll_rows_grows env auth folderId rows old w0) as (w' & -> & _ & Hold');
          done
    end.
Qed.

(** X6. The poller never deletes from the Drive and never changes a file
    other than by making it readable by anyone: after any number of ticks,
    whatever failed, the Drive holds the files it held, in the same order,
    each one as it was or as it was and public, followed by the files added
    since. *)
Theorem ticks_never_remove_documents env auth folderId k w :
  grown_from (drive w) (drive (world_of (poll_ticks env auth folderId k w))).
Proof.
  apply (preserves_for_of (λ w', grown_from (drive w) (drive w'))).
  - intros _ _. apply poll_tick_grows.
  - apply grown_from_refl.
Qed.

Lemma sendSMS_log env phone customerID link w :
  pool w = true →
  ∃ w', sendSMS env phone customerID link w = Ok tt w' ∧ pool w' = true ∧
    (tb_SMS_LOG w' = tb_SMS_LOG w ∨
     ∃ r0, tb_SMS_LOG w' = tb_SMS_LOG w ++ [log_record r0 phone customerID link]).
Proof.
  intros Hpool.
  unfold sendSMS, connectToDatabase, select_profile, axios_get, insert_log, extcall.
  munfold. cbn -[Js.escape Js.trim Js.split]. rewrite Hpool.
  repeat match goal with
         | |- context [fault env ?n] => destruct (fault env n)
         | |- context [filter ?f ?l] => destruct (filter f l)
         | |- context [decide ?p] => destruct (decide p)
         end;
    (eexists; split; [reflexivity|]; split; [done|]);
    first [by left|right; by eexists].
Qed.

Lemma log_extends_refl l : log_extends l l.
Proof. exists []. by rewrite app_nil_r. Qed.

Lemma poll_row_log env auth folderId row old w :
  pool w = true → log_extends old (tb_SMS_LOG w) →
  ∃ w', poll_row env auth folderId row w = Ok tt w' ∧ pool w' = true ∧
        log_extends old (tb_SMS_LOG w').
Proof.
  intros Hpool Hold. unfold poll_row.
  destruct (customerPhone_of (MOBILENO row)) as [phone|] eqn:Hphone; [|by exists w].
  apply customerPhone_of_local in Hphone.
  unfold uploadToDrive, files_create, permissions_create, update_download, extcall.
  munfold. cbn -[sendSMS].
  repeat match goal with
         | |- context [fault env ?n] => destruct (fault env n); cbn -[sendSMS]
         end;
    try by eexists.
  match goal with
  | |- context [sendSMS env ?p ?c ?l ?w1] =>
      destruct (sendSMS_log env p c l w1) as (w' & -> & ? & Hlog); [done|]
  end.
  exists w'. split; [done|]. split; [done|].
  destruct Hlog as [->|[r0 ->]]; [done|]. cbn.
  destruct Hold as (added & -> & Hadded).
  exists (added ++ [log_record r0 phone (CUSTOMERID row)
                      (fresh_link env (length (trace w)))]).
  split; [by rewrite app_assoc|]. apply Forall_app. split; [done|]. by repeat constructor.
Qed.

Lemma poll_rows_log env auth folderId rows old w :
  pool w = true → log_extends old (tb_SMS_LOG w) →
  ∃ w', poll_rows env auth folderId rows w = Ok tt w' ∧ pool w' = true ∧
        log_extends old (tb_SMS_LOG w').
Proof.
  revert w. induction rows as [|row rows IH]; intros w Hpool Hold; [by exists w|].
  destruct (poll_row_log env auth folderId row old w Hpool Hold) as (w0 & Hrow & Hpool0 & Hold0).
  destruct (IH w0 Hpool0 Hold0) as (w' & Hrows & ?).
  exists w'. unfold poll_rows in *. simpl. munfold. by rewrite Hrow.
Qed.

Lemma poll_tick_log env auth folderId old :
  preserves (λ w, log_extends old (tb_SMS_LOG w)) (poll_tick env auth folderId).
Proof.
  intros w Hold.
  unfold poll_tick, connectToDatabase, mssql_connect, select_pending, extcall. munfold.
  destruct (pool w) eqn:Hpool.
  - destruct (fault env _); [done|]. cbv beta iota.
    match goal with
    | |- context [poll_rows env auth folderId ?rows ?w0] =>
        destruct (poll_rows_log env auth folderId rows old w0) as (w' & -> & _ & Hold');
          done
    end.
  - destruct (fault env (length (trace w))); [done|]. cbv beta iota.
    match goal with
    | |- context [fault env ?n] => destruct (fault env n); [done|]
    end.
    cbv beta iota.
    match goal with
    | |- context [poll_rows env auth folderId ?rows ?w0] =>
        destruct (poll_rows_log env auth folderId rows old w0) as (w' & -> & _ & Hold');
          done
    end.
Qed.

(** X7. [tb_SMS_LOG] only grows: after any number of ticks, whatever failed,
    the log is the log as it was followed by new rows, and the phone number
    of every new row is in local form (a zero and nine digits). *)
Theorem sms_log_is_append_only env auth folderId k w :
  log_extends (tb_SMS_LOG w) (tb_SMS_LOG (world_of (poll_ticks env auth folderId k w))).
Proof.
  apply (preserves_for_of (λ w', log_extends (tb_SMS_LOG w) (tb_SMS_LOG w'))).
  - intros _ _. apply poll_tick_log.
  - apply log_extends_refl.
Qed.

(* ===================================================================== *)
(** * The upload                                                          *)
(* ===================================================================== *)

Lemma share_fileId i f : fileId (share i f) = fileId f.
Proof. unfold share. by destruct (decide _). Qed.

Lemma uploaded_file_document env folderId row n :
  document_of folderId (FILENAME row) (uploaded_file env folderId row n).
Proof. done. Qed.

Lemma share_document i folderId name f :
  document_of folderId name f → document_of folderId name (share i f).
Proof. unfold share, document_of. by destruct (decide _). Qed.

(** X8. What [uploadToDrive] leaves behind.  The ids of the files are the
    ids that were there, followed by at most one more.  When it returns a
    link, a file with that link is in the Drive: readable by anyone, not
    trashed, a PDF in the given folder with the given name.  When it throws,
    either the creation failed and the Drive is as it was, or the sharing
    failed and the file created stays in the Drive, not shared: the function
    does not remove it. *)
Theorem uploadToDrive_result env auth pdfBuffer fileName' folderId w :
  let o := uploadToDrive env auth pdfBuffer fileName' folderId w in
  (∃ added, fileId <$> drive (world_of o) = (fileId <$> drive w) ++ added ∧
            (length added ≤ 1)%nat) ∧
  (∀ link w', o = Ok link w' →
     ∃ f, f ∈ drive w' ∧ webViewLink f = link ∧ anyone_reader f = true ∧
          document_of folderId fileName' f) ∧
  (∀ message w', o = Throw message w' →
     (fault env (length (trace w)) = Some message ∧ drive w' = drive w) ∨
     (fault env (S (length (trace w))) = Some message ∧
      ∃ f, drive w' = drive w ++ [f] ∧ anyone_reader f = false ∧
           document_of folderId fileName' f)).
Proof.
  intros o. subst o.
  unfold uploadToDrive, files_create, permissions_create, extcall. munfold. cbn.
  destruct (fault env (length (trace w))) as [m0|] eqn:H0; cbn.
  { split; [exists []; split; [by rewrite app_nil_r|simpl; lia]|]. split; [done|].
    intros message w' [= <- <-]. by left. }
  rewrite length_app, Nat.add_1_r.
  destruct (fault env (S (length (trace w)))) as [m1|] eqn:H1; cbn.
  - split; [eexists [_]; split; [by rewrite fmap_app|simpl; lia]|]. split; [done|].
    intros message w' [= <- <-]. right. split; [done|]. eexists. by split.
  - split.
    { eexists [_]. split; [|simpl; lia]. rewrite <- list_fmap_compose, fmap_app. simpl.
      f_equal. apply list_fmap_ext. intros ? f _. simpl. apply share_fileId. }
    split; [|done]. intros link w' [= <- <-]. simpl.
    eexists. split.
    { rewrite fmap_app. apply elem_of_app. right. apply list_elem_of_singleton. reflexivity. }
    unfold share. rewrite decide_True by done. by cbn.
Qed.

(** The body of the loop when the file is created and its sharing fails. *)
Lemma poll_row_sharing_fails env auth folderId row phone message w :
  customerPhone_of (MOBILENO row) = Some phone →
  fault env (length (trace w)) = None →
  fault env (S (length (trace w))) = Some message →
  let f := uploaded_file env folderId row (length (trace w)) in
  poll_row env auth folderId row w =
  Ok tt (log_event (EvPermissionsCreate (fileId f))
           (set_drive (λ l, l ++ [f])
              (log_event (EvFilesCreate (FILENAME row) pdf_mime folderId) w))).
Proof.
  intros Hphone H0 H1 f. subst f. unfold poll_row. rewrite Hphone.
  unfold uploadToDrive, files_create, permissions_create, update_download, extcall.
  munfold. cbn -[sendSMS]. rewrite H0. cbn -[sendSMS].
  by rewrite length_app, Nat.add_1_r, H1.
Qed.

(** X9. A row whose upload fails is left for the next poll.  When the
    creation fails the body makes that call and nothing else.  When the
    sharing fails the body stops after it: no UPDATE, no message, the tables
    are as they were and the row is still pending, but the file that was
    created stays in the Drive, not shared. *)
Theorem failed_upload_leaves_row_pending env auth folderId row phone message w :
  customerPhone_of (MOBILENO row) = Some phone →
  let n := length (trace w) in
  let f := uploaded_file env folderId row n in
  (fault env n = Some message →
     poll_row env auth folderId row w =
     Ok tt (log_event (EvFilesCreate (FILENAME row) pdf_mime folderId) w)) ∧
  (fault env n = None → fault env (S n) = Some message →
     ∃ w', poll_row env auth folderId row w = Ok tt w' ∧
       trace w' = trace w ++ [EvFilesCreate (FILENAME row) pdf_mime folderId;
                              EvPermissionsCreate (fileId f)] ∧
       tb_SMART_INVOICE w' = tb_SMART_INVOICE w ∧
       tb_SMS_LOG w' = tb_SMS_LOG w ∧
       drive w' = drive w ++ [f] ∧ anyone_reader f = false).
Proof.
  intros Hphone n f. subst n f. unfold poll_row. rewrite Hphone.
  unfold uploadToDrive, files_create, permissions_create, update_download, extcall.
  munfold. cbn -[sendSMS]. split.
  - by intros ->.
  - intros -> H1. cbn -[sendSMS]. rewrite length_app, Nat.add_1_r, H1.
    eexists. split; [reflexivity|]. cbn. by rewrite <- app_assoc.
Qed.

(** X10. The retry after a failed sharing uploads the document again: when
    the sharing of a row's file fails and the next run of the body for the row
    succeeds in its three calls, the Drive ends with two documents of the row
    in the folder, the first one left from the failed run and the second one,
    public, from the retry. *)
Theorem retry_after_failed_sharing_duplicates env auth folderId row phone message w :
  pool w = true →
  customerPhone_of (MOBILENO row) = Some phone →
  fault env (length (trace w)) = None →
  fault env (S (length (trace w))) = Some message →
  fault env (2 + length (trace w)) = None →
  fault env (3 + length (trace w)) = None →
  fault env (4 + length (trace w)) = None →
  ∃ w1 w2 old d1 d2,
    poll_row env auth folderId row w = Ok tt w1 ∧
    poll_row env auth folderId row w1 = Ok tt w2 ∧
    drive w2 = old ++ [d1; d2] ∧ length old = length (drive w) ∧
    document_of folderId (FILENAME row) d1 ∧
    document_of folderId (FILENAME row) d2 ∧
    anyone_reader d2 = true.
Proof.
  intros Hpool Hphone H0 H1 H2 H3 H4.
  pose proof (poll_row_sharing_fails env auth folderId row phone message w Hphone H0 H1)
    as Hrow1.
  cbv zeta in Hrow1.
  match type of Hrow1 with _ = Ok tt ?w0 => remember w0 as w1 eqn:Hw1 end.
  assert (pool w1 = true) as Hpool1 by by rewrite Hw1.
  assert (length (trace w1) = (2 + length (trace w))%nat) as Hlen
    by (rewrite Hw1; norm_len; lia).
  assert (drive w1 = drive w ++ [uploaded_file env folderId row (length (trace w))])
    as Hdrive1 by by rewrite Hw1.
  clear Hw1.
  pose proof (poll_row_marked env auth folderId row phone w1 Hpool1 Hphone) as Hrow2.
  rewrite Hlen in Hrow2. specialize (Hrow2 H2 H3 H4).
  destruct (sendSMS_frame env phone (CUSTOMERID row) (fresh_link env (2 + length (trace w)))
              (marked env folderId row w1)) as (w2 & tail & Hsend & _ & _ & _ & Hdrive2 & _);
    [done|].
  rewrite Hsend in Hrow2.
  exists w1, w2. eexists _, _, _. split; [done|]. split; [done|].
  rewrite Hdrive2. cbn. rewrite Hdrive1, !fmap_app, <- app_assoc. cbn.
  split; [reflexivity|]. split; [by rewrite length_fmap|].
  split; [apply share_document, uploaded_file_document|].
  split; [apply share_document, uploaded_file_document|].
  unfold share. by rewrite decide_True.
Qed.

(** X11. The link given to [sendSMS] is the link of a document that is
    already public: when the upload and the UPDATE of a row succeed, the body
    goes on as [sendSMS] with the [webViewLink] of a file that is in the Drive
    at that moment, readable by anyone, a PDF in the folder with the row's
    file name. *)
Theorem notified_link_is_public env auth folderId row phone w :
  pool w = true →
  customerPhone_of (MOBILENO row) = Some phone →
  fault env (length (trace w)) = None →
  fault env (S (length (trace w))) = None →
  fault env (S (S (length (trace w)))) = None →
  ∃ w1 link f,
    poll_row env auth folderId row w = sendSMS env phone (CUSTOMERID row) link w1 ∧
    f ∈ drive w1 ∧ webViewLink f = link ∧ anyone_reader f = true ∧
    document_of folderId (FILENAME row) f.
Proof.
  intros Hpool Hphone H0 H1 H2.
  exists (marked env folderId row w), (fresh_link env (length (trace w))).
  exists (share (fresh_id env (length (trace w)))
            (uploaded_file env folderId row (length (trace w)))).
  split; [by apply poll_row_marked|]. split.
  - cbn. rewrite fmap_app. apply elem_of_app. right. by apply list_elem_of_singleton.
  - unfold share. rewrite decide_True by done. by cbn.
Qed.

(* ===================================================================== *)
(** * The notification                                                    *)
(* ===================================================================== *)

(** X12. A row is written to [tb_SMS_LOG] only for a message the gateway
    accepted: [sendSMS] leaves the log as it was, or it appends exactly one
    row, and then the customer has a profile whose [SMARTINVOICE_ACTIVE] is
    ['T'], the GET succeeded and answered with the first token [OK], the
    events are the entry into [sendSMS], the SELECT of the profile, the GET
    and the INSERT, in this order, and the row holds the customer, the
    trimmed credentials of that profile, the phone and the link. *)
Theorem log_row_only_for_accepted_message env phone customerID link w :
  pool w = true →
  let w' := world_of (sendSMS env phone customerID link w) in
  tb_SMS_LOG w' = tb_SMS_LOG w ∨
  ∃ r0,
    tb_SMS_LOG w' = tb_SMS_LOG w ++ [log_record r0 phone customerID link] ∧
    head (filter (λ r, CUSTOMER_ID r = customerID) (tb_SMS_MAIN w)) = Some r0 ∧
    SMARTINVOICE_ACTIVE r0 = "T" ∧
    status_token (http_data env (S (S (length (trace w))))) = "OK" ∧
    fault env (S (S (length (trace w)))) = None ∧
    new_events (sendSMS env phone customerID link) w =
      notify_calls r0 phone customerID link.
Proof.
  intros Hpool w'. subst w'. unfold new_events, status_token.
  unfold sendSMS, connectToDatabase, select_profile, axios_get, insert_log, extcall.
  munfold. cbn -[Js.escape Js.trim Js.split]. rewrite Hpool.
  norm_len.
  destruct (fault env (S (length (trace w)))); [by left|].
  cbn -[Js.escape Js.trim Js.split].
  destruct (filter _ _) as [|r0 rest]; [by left|].
  destruct (decide _) as [Hactive|]; [|by left].
  cbn -[Js.escape Js.trim Js.split]. norm_len.
  cbn -[Js.escape Js.trim Js.split].
  destruct (fault env (S (S (length (trace w))))) eqn:Hget; [by left|].
  cbn -[Js.escape Js.trim Js.split].
  destruct (decide _) as [Hok|]; [|by left].
  cbn -[Js.escape Js.trim Js.split].
  match goal with
  | |- context [fault env ?n] => destruct (fault env n); [by left|]
  end.
  right. exists r0. cbn -[Js.escape Js.trim Js.split].
  rewrite <- !app_assoc, drop_app_length. by repeat split.
Qed.

Lemma append_empty_r (s : string) : s +:+ "" = s.
Proof. induction s as [|c s IH]; [done|]. by rewrite <- IH at 2. Qed.

Lemma append_assoc (s t u : string) : (s +:+ t) +:+ u = s +:+ t +:+ u.
Proof.
  induction s as [|c s IH]; [done|].
  change (String c ((s +:+ t) +:+ u) = String c (s +:+ t +:+ u)). by rewrite IH.
Qed.

Lemma trim_start_white ws s :
  all_white ws = true → Js.trim_start (ws +:+ s) = Js.trim_start s.
Proof.
  induction ws as [|c ws IH]; [done|]. simpl. intros H. split_andb.
  rewrite H. by apply IH.
Qed.

Lemma trim_end_white ws : all_white ws = true → Js.trim_end ws = "".
Proof.
  induction ws as [|c ws IH]; [done|]. simpl. intros H. split_andb.
  by rewrite IH, H.
Qed.

Lemma trim_end_cons c s :
  Js.is_white c = false → Js.trim_end (String c s) = String c (Js.trim_end s).
Proof. intros H. simpl. rewrite H. by destruct (Js.trim_end s). Qed.

Lemma trim_end_white_cons ws c s :
  Js.is_white c = false →
  Js.trim_end (ws +:+ String c s) = ws +:+ String c (Js.trim_end s).
Proof.
  intros Hc. induction ws as [|a ws IH]; [by apply trim_end_cons|].
  change (String a ws +:+ String c s) with (String a (ws +:+ String c s)).
  cbn [Js.trim_end]. rewrite IH. by destruct ws.
Qed.

Lemma split_cons sep c s :
  Js.split sep (String c s) =
  if decide (c = sep) then EmptyString :: Js.split sep s
  else match Js.split sep s with
       | t :: ts => String c t :: ts
       | [] => [String c EmptyString]
       end.
Proof. done. Qed.

Lemma white_not_colon c : Js.is_white c = true → c ≠ ":"%char.
Proof. by intros H ->. Qed.

Lemma split_white_colon ws s :
  all_white ws = true → Js.split ":" (ws +:+ String ":" s) = ws :: Js.split ":" s.
Proof.
  induction ws as [|c ws IH];
    [intros _; change ("" +:+ String ":" s) with (String ":" s);
     by rewrite split_cons, decide_True|].
  simpl. intros H. split_andb.
  change (String c ws +:+ String ":" s) with (String c (ws +:+ String ":" s)).
  rewrite split_cons, IH by done.
  by rewrite decide_False by by apply white_not_colon.
Qed.

(** X13. The gateway answers [sendSMS] takes for a success: [OK], with any
    white space before and after it, alone or followed by a colon and
    anything. *)
Theorem accepted_answers ws1 ws2 rest :
  all_white ws1 = true → all_white ws2 = true →
  rest = "" ∨ Js.starts_with ":" rest = true →
  status_token (ws1 +:+ "OK" +:+ ws2 +:+ rest) = "OK".
Proof.
  intros H1 H2 Hrest. unfold status_token, Js.trim.
  rewrite trim_start_white by done.
  change ("OK" +:+ ws2 +:+ rest) with (String "O" (String "K" (ws2 +:+ rest))).
  cbn [Js.trim_start]. change (Js.is_white "O") with false. cbv iota.
  rewrite !trim_end_cons by done.
  assert (∀ ws, all_white ws = true →
            Js.trim_end (Js.trim_start (String "O" (String "K" ws))) = "OK") as Htoken.
  { intros ws Hws. cbn [Js.trim_start]. change (Js.is_white "O") with false. cbv iota.
    by rewrite !trim_end_cons, trim_end_white. }
  destruct Hrest as [->|Hcolon].
  - rewrite append_empty_r, (trim_end_white ws2) by done.
    by vm_compute.
  - destruct rest as [|c rest]; [done|]. simpl in Hcolon.
    apply andb_true_iff in Hcolon as [<-%bool_decide_eq_true _].
    rewrite (trim_end_white_cons ws2) by done.
    change (String "O" (String "K" (ws2 +:+ String ":" (Js.trim_end rest))))
      with (String "O" (String "K" ws2) +:+ String ":" (Js.trim_end rest)).
    assert (Js.split ":" (String "O" (String "K" ws2) +:+ String ":" (Js.trim_end rest)) =
            String "O" (String "K" ws2) :: Js.split ":" (Js.trim_end rest)) as ->.
    { change (String "O" (String "K" ws2) +:+ String ":" (Js.trim_end rest))
        with (String "O" (String "K" (ws2 +:+ String ":" (Js.trim_end rest)))).
      rewrite !split_cons, split_white_colon by done.
      by rewrite !decide_False by done. }
    simpl. by apply Htoken.
Qed.

Lemma escape_cons c s :
  Js.escape (String c s) =
  (if Js.unreserved c then String c EmptyString
   else if (nat_of_ascii c <? 128)%nat then Js.percent (nat_of_ascii c)
   else Js.percent (192 + nat_of_ascii c / 64) +:+ Js.percent (128 + nat_of_ascii c mod 64))
  +:+ Js.escape s.
Proof. done. Qed.

(** [querystring.escape] leaves unreserved characters and percent signs
    only. *)
Lemma escape_url_safe s : all_url_safe (Js.escape s) = true.
Proof.
  induction s as [|c s IH]; [done|]. rewrite escape_cons.
  destruct c as [[] [] [] [] [] [] [] []]; exact IH.
Qed.

(** Every GET of [sendSMS] is the request made of the first profile of the
    customer, which is active. *)
Lemma sendSMS_get env phone customerID link w url :
  pool w = true →
  EvHttpGet url ∈ new_events (sendSMS env phone customerID link) w →
  ∃ r0,
    head (filter (λ r, CUSTOMER_ID r = customerID) (tb_SMS_MAIN w)) = Some r0 ∧
    SMARTINVOICE_ACTIVE r0 = "T" ∧
    url = gateway_url r0 phone link.
Proof.
  intros Hpool. unfold new_events.
  unfold sendSMS, connectToDatabase, select_profile, axios_get, insert_log, extcall.
  munfold. cbn -[Js.escape Js.trim Js.split]. rewrite Hpool. norm_len.
  assert (∀ events,
            Forall (λ e, ∀ u, e ≠ EvHttpGet u) events →
            EvHttpGet url ∈ drop (length (trace w)) (trace w ++ events) →
            ∃ r0,
              head (filter (λ r, CUSTOMER_ID r = customerID) (tb_SMS_MAIN w)) = Some r0 ∧
              SMARTINVOICE_ACTIVE r0 = "T" ∧ url = gateway_url r0 phone link) as Hnone.
  { intros events Hevents. rewrite drop_app_length. intros Hin.
    rewrite Forall_forall in Hevents. by destruct (Hevents _ Hin url). }
  destruct (fault env (S (length (trace w)))).
  { cbn. rewrite <- app_assoc. apply Hnone. by repeat constructor. }
  cbn -[Js.escape Js.trim Js.split].
  destruct (filter _ _) as [|r0 rest] eqn:Hprofile.
  { cbn. rewrite <- app_assoc. apply Hnone. by repeat constructor. }
  destruct (decide _) as [Hactive|].
  2:{ cbn. rewrite <- app_assoc. apply Hnone. by repeat constructor. }
  assert (∀ events,
            Forall (λ e, ∀ u, e ≠ EvHttpGet u) events →
            EvHttpGet url ∈
              drop (length (trace w))
                (trace w ++ [EvSendSMS phone customerID link; EvSelectProfile customerID;
                             EvHttpGet (gateway_url r0 phone link)] ++ events) →
            ∃ r1,
              Some r0 = Some r1 ∧
              SMARTINVOICE_ACTIVE r1 = "T" ∧ url = gateway_url r1 phone link) as Hget.
  { intros events Hevents. rewrite drop_app_length. intros Hin.
    exists r0. split; [done|]. split; [done|].
    rewrite Forall_forall in Hevents.
    repeat (apply elem_of_cons in Hin as [Hin|Hin]; [try discriminate Hin|]).
    - by injection Hin.
    - by destruct (Hevents _ Hin url). }
  cbn -[Js.escape Js.trim Js.split]. norm_len.
  cbn -[Js.escape Js.trim Js.split].
  destruct (fault env (S (S (length (trace w))))).
  { cbn -[Js.escape Js.trim Js.split]. rewrite <- !app_assoc. apply (Hget []). constructor. }
  cbn -[Js.escape Js.trim Js.split].
  destruct (decide _).
  2:{ cbn -[Js.escape Js.trim Js.split]. rewrite <- !app_assoc. apply (Hget []).
      constructor. }
  cbn -[Js.escape Js.trim Js.split].
  match goal with
  | |- context [fault env ?n] => destruct (fault env n)
  end;
    cbn -[Js.escape Js.trim Js.split]; rewrite <- !app_assoc;
    apply (Hget [_]); by repeat constructor.
Qed.

(** X14. Whatever the link holds, the text of the message reaches the
    gateway escaped: once the pool exists, every GET of [sendSMS] is for the
    head of the request made of the first profile of the customer (the
    address, the trimmed credentials of that profile as they are, and the
    phone) followed by the escaped text of the message, in which every
    character is an unreserved one or a percent sign: the text adds no
    parameter to the request. *)
Theorem gateway_request_escapes_text env phone customerID link w url :
  pool w = true →
  EvHttpGet url ∈ new_events (sendSMS env phone customerID link) w →
  ∃ r0,
    head (filter (λ r, CUSTOMER_ID r = customerID) (tb_SMS_MAIN w)) = Some r0 ∧
    url = gateway_url_head r0 phone +:+
          Js.escape ("Dear customer, your bill is available at: " +:+ link) ∧
    all_url_safe (Js.escape ("Dear customer, your bill is available at: " +:+ link)) =
      true.
Proof.
  intros Hpool Hurl.
  destruct (sendSMS_get env phone customerID link w url Hpool Hurl)
    as (r0 & Hprofile & _ & ->).
  exists r0. split; [done|]. split; [|apply escape_url_safe].
  unfold gateway_url, gateway_url_head. by rewrite !append_assoc.
Qed.

(* ===================================================================== *)
(** * The folder                                                          *)
(* ===================================================================== *)

(** The listing answers a page: what the loop reads of it, its first file,
    is the first matching file of the Drive. *)
Lemma found_folders_first name cur w :
  match filter (λ f, matches (QFolderNamed name cur) f = true) (drive w) with
  | [] => found_folders name cur w = []
  | f :: _ => ∃ more, found_folders name cur w = f :: more
  end.
Proof. unfold found_folders. destruct (filter _ _); [done|]. by eexists. Qed.

Lemma elem_of_found_folders name cur w f :
  f ∈ found_folders name cur w →
  matches (QFolderNamed name cur) f = true ∧ f ∈ drive w.
Proof. unfold found_folders. by intros Hf%subseteq_take%list_elem_of_filter. Qed.

Lemma found_folders_grows name cur w w2 f found ext :
  found_folders name cur w = f :: found →
  drive w2 = drive w ++ ext →
  ∃ more, found_folders name cur w2 = f :: more.
Proof.
  intros Hfound Hdrive.
  pose proof (found_folders_first name cur w) as Hw.
  pose proof (found_folders_first name cur w2) as Hw2.
  rewrite Hdrive, filter_app in Hw2.
  destruct (filter _ (drive w)) as [|f' l]; [congruence|].
  destruct Hw as [more Hw]. by replace f with f' by congruence.
Qed.

Lemma found_folders_new name cur w w2 g ext :
  found_folders name cur w = [] →
  matches (QFolderNamed name cur) g = true →
  drive w2 = drive w ++ g :: ext →
  ∃ more, found_folders name cur w2 = g :: more.
Proof.
  intros Hfound Hg Hdrive.
  pose proof (found_folders_first name cur w) as Hw.
  pose proof (found_folders_first name cur w2) as Hw2.
  rewrite Hdrive, filter_app, (filter_cons_True _ g) in Hw2 by done.
  destruct (filter _ (drive w)) as [|f' l]; [done|].
  destruct Hw as [more Hw]. congruence.
Qed.

Lemma resolve_folders_cons env folderName rest currentParentId w :
  resolve_folders env (folderName :: rest) currentParentId w =
  let q := QFolderNamed folderName currentParentId in
  let w1 := log_event (EvFilesList q) w in
  match fault env (length (trace w)) with
  | Some message => Throw message w1
  | None =>
      match found_folders folderName currentParentId w with
      | f :: _ => resolve_folders env rest (Some (fileId f)) w1
      | [] =>
          let g := created_folder env folderName currentParentId (S (length (trace w))) in
          let e := EvFilesCreate folderName folder_mime currentParentId in
          match fault env (S (length (trace w))) with
          | Some message => Throw message (log_event e w1)
          | None => resolve_folders env rest (Some (fileId g))
                      (set_drive (λ l, l ++ [g]) (log_event e w1))
          end
      end
  end.
Proof.
  cbn [resolve_folders]. unfold files_list, files_create, extcall, found_folders. munfold.
  destruct (fault env (length (trace w))); [done|]. cbn.
  destruct (filter _ (drive w)); cbn; [|done].
  norm_len. by destruct (fault env (S (length (trace w)))).
Qed.

Lemma matches_folder_named folderName currentParentId f :
  matches (QFolderNamed folderName currentParentId) f = true → folder_named folderName f.
Proof.
  unfold matches, folder_named. intros H. split_andb.
  split; [done|]. split; [done|]. by destruct (trashed f).
Qed.

Lemma created_folder_matches env folderName currentParentId n :
  matches (QFolderNamed folderName currentParentId)
    (created_folder env folderName currentParentId n) = true.
Proof.
  unfold matches, in_parent.
  rewrite !bool_decide_eq_true_2 by done. by destruct currentParentId.
Qed.

(** Whatever happens, the folders that were there stay, in place, and what
    is added are folders named after segments, at most one for each. *)
Lemma resolve_folders_extends env folderNames currentParentId w :
  ∃ created,
    drive (world_of (resolve_folders env folderNames currentParentId w)) =
      drive w ++ created ∧
    (length created ≤ length folderNames)%nat ∧
    Forall (λ f, ∃ name, name ∈ folderNames ∧ folder_named name f) created.
Proof.
  revert currentParentId w.
  induction folderNames as [|name rest IH]; intros cur w.
  - exists []. simpl. by rewrite app_nil_r.
  - rewrite resolve_folders_cons. cbv zeta.
    destruct (fault env (length (trace w))).
    { exists []. simpl. rewrite app_nil_r. split; [done|]. split; [lia|done]. }
    destruct (found_folders name cur w) as [|f ?].
    + destruct (fault env (S (length (trace w)))).
      { exists []. simpl. rewrite app_nil_r. split; [done|]. split; [lia|done]. }
      destruct (IH (Some (fileId (created_folder env name cur (S (length (trace w))))))
                  (set_drive (λ l, l ++ [created_folder env name cur (S (length (trace w)))])
                     (log_event (EvFilesCreate name folder_mime cur)
                        (log_event (EvFilesList (QFolderNamed name cur)) w))))
        as (created & -> & Hlen & Hall).
      eexists (_ :: created). cbn. rewrite <- app_assoc.
      split; [reflexivity|]. split; [simpl; lia|].
      constructor.
      * exists name. split; [left|done].
      * eapply Forall_impl; [exact Hall|]. intros f (n & Hn & Hf). exists n. split; [by right|done].
    + destruct (IH (Some (fileId f)) (log_event (EvFilesList (QFolderNamed name cur)) w))
        as (created & -> & Hlen & Hall).
      exists created. cbn. split; [done|]. split; [simpl; lia|].
      eapply Forall_impl; [exact Hall|]. intros g (n & Hn & Hg). exists n. split; [by right|done].
Qed.

(** On success the handle is the id of a live folder named after the last
    segment. *)
Lemma resolve_folders_handle env folderNames currentParentId w r w' :
  resolve_folders env folderNames currentParentId w = Ok r w' →
  match last folderNames with
  | None => r = currentParentId ∧ w' = w
  | Some name => ∃ f, f ∈ drive w' ∧ r = Some (fileId f) ∧ folder_named name f
  end.
Proof.
  revert currentParentId w.
  induction folderNames as [|name rest IH]; intros cur w Hres.
  - by injection Hres as <- <-.
  - rewrite resolve_folders_cons in Hres. cbv zeta in Hres.
    destruct (fault env (length (trace w))); [done|].
    destruct (found_folders name cur w) as [|f found] eqn:Hfound.
    + destruct (fault env (S (length (trace w)))); [done|].
      pose proof (IH _ _ Hres) as Hlast.
      destruct rest as [|name2 rest];
        [|change (last (name :: name2 :: rest)) with (last (name2 :: rest));
          destruct (last (name2 :: rest)) eqn:Hl; [exact Hlast|by apply last_None in Hl]].
      destruct Hlast as [-> ->]. cbn.
      eexists. split; [apply elem_of_app; right; by apply list_elem_of_singleton|].
      split; [done|]. done.
    + pose proof (IH _ _ Hres) as Hlast.
      destruct rest as [|name2 rest];
        [|change (last (name :: name2 :: rest)) with (last (name2 :: rest));
          destruct (last (name2 :: rest)) eqn:Hl; [exact Hlast|by apply last_None in Hl]].
      destruct Hlast as [-> ->]. cbn.
      assert (f ∈ found_folders name cur w) as Hf by (rewrite Hfound; left).
      apply elem_of_found_folders in Hf as [Hq Hf].
      exists f. split; [done|]. split; [done|]. by eapply matches_folder_named.
Qed.

(** X15. What [getOrCreateFolder] leaves behind.  It only adds to the Drive:
    at most one file for each segment of the path, each of them a live folder
    named after a segment.  When it returns, the result is the id of a live
    folder of the Drive named after the last segment; for a path without
    segments it is [null] and nothing is called. *)
Theorem getOrCreateFolder_result env auth folderPath w :
  let o := getOrCreateFolder env auth folderPath w in
  (∃ created,
     drive (world_of o) = drive w ++ created ∧
     (length created ≤ length (folder_names folderPath))%nat ∧
     Forall (λ f, ∃ name, name ∈ folder_names folderPath ∧ folder_named name f) created) ∧
  (∀ r w', o = Ok r w' →
     match last (folder_names folderPath) with
     | None => r = None ∧ w' = w
     | Some name => ∃ f, f ∈ drive w' ∧ r = Some (fileId f) ∧ folder_named name f
     end).
Proof.
  intros o. subst o. unfold getOrCreateFolder. munfold. fold (folder_names folderPath).
  pose proof (resolve_folders_extends env (folder_names folderPath) None w) as Hext.
  pose proof (resolve_folders_handle env (folder_names folderPath) None w) as Hhandle.
  destruct (resolve_folders env (folder_names folderPath) None w) as [r w'|e w'|c w'].
  - split; [done|]. intros r0 w0 [= <- <-]. by apply Hhandle.
  - by split.
  - by split.
Qed.

Lemma resolve_folders_again env env2 folderNames currentParentId w r w' w2 ext :
  resolve_folders env folderNames currentParentId w = Ok r w' →
  drive w2 = drive w' ++ ext →
  (∀ n, (length (trace w2) ≤ n)%nat → fault env2 n = None) →
  ∃ w2' seg,
    resolve_folders env2 folderNames currentParentId w2 = Ok r w2' ∧
    drive w2' = drive w2 ∧
    trace w2' = trace w2 ++ seg ∧
    Forall is_list_call seg ∧ length seg = length folderNames.
Proof.
  revert currentParentId w w2.
  induction folderNames as [|name rest IH]; intros cur w w2 Hres Hdrive Hfault.
  - injection Hres as <- <-. exists w2, []. simpl. by rewrite app_nil_r.
  - rewrite resolve_folders_cons in Hres. cbv zeta in Hres.
    rewrite resolve_folders_cons. cbv zeta. rewrite (Hfault (length (trace w2))) by done.
    destruct (fault env (length (trace w))); [done|].
    assert (∀ n, (length (trace (log_event (EvFilesList (QFolderNamed name cur)) w2)) ≤ n)%nat
                 → fault env2 n = None) as Hfault1.
    { intros n Hn. apply Hfault. norm_len_in Hn. lia. }
    destruct (found_folders name cur w) as [|f found] eqn:Hfound.
    + destruct (fault env (S (length (trace w)))); [done|].
      set (g := created_folder env name cur (S (length (trace w)))) in *.
      destruct (resolve_folders_extends env rest (Some (fileId g))
                  (set_drive (λ l, l ++ [g])
                     (log_event (EvFilesCreate name folder_mime cur)
                        (log_event (EvFilesList (QFolderNamed name cur)) w))))
        as (created & Hext & _).
      rewrite Hres in Hext. cbn in Hext.
      assert (∃ more, found_folders name cur w2 = g :: more) as [more ->].
      { apply (found_folders_new name cur w w2 g (created ++ ext));
          [done|apply created_folder_matches|].
        by rewrite Hdrive, Hext, <- !app_assoc. }
      destruct (IH _ _ (log_event (EvFilesList (QFolderNamed name cur)) w2) Hres Hdrive Hfault1)
        as (w2' & seg & Hres2 & Hd2 & Ht2 & Hseg & Hlen).
      exists w2', (EvFilesList (QFolderNamed name cur) :: seg).
      split; [done|]. split; [done|]. rewrite Ht2. cbn. rewrite <- app_assoc.
      split; [done|]. split; [by constructor|]. by rewrite Hlen.
    + destruct (resolve_folders_extends env rest (Some (fileId f))
                  (log_event (EvFilesList (QFolderNamed name cur)) w))
        as (created & Hext & _).
      rewrite Hres in Hext. cbn in Hext.
      assert (∃ more, found_folders name cur w2 = f :: more) as [more ->].
      { apply (found_folders_grows name cur w w2 f found (created ++ ext)); [done|].
        by rewrite Hdrive, Hext, <- !app_assoc. }
      destruct (IH _ _ (log_event (EvFilesList (QFolderNamed name cur)) w2) Hres Hdrive Hfault1)
        as (w2' & seg & Hres2 & Hd2 & Ht2 & Hseg & Hlen).
      exists w2', (EvFilesList (QFolderNamed name cur) :: seg).
      split; [done|]. split; [done|]. rewrite Ht2. cbn. rewrite <- app_assoc.
      split; [done|]. split; [by constructor|]. by rewrite Hlen.
Qed.

(** X16. Resolving a path again finds what the first resolution left: after
    a successful [getOrCreateFolder], a second one for the same path, on a
    Drive that holds the same files and any number of newer ones and with
    none of its calls failing, returns the same folder id, creates nothing
    and makes one listing for each segment. *)
Theorem getOrCreateFolder_again env auth env2 auth2 folderPath w r w' w2 ext :
  getOrCreateFolder env auth folderPath w = Ok r w' →
  drive w2 = drive w' ++ ext →
  (∀ n, (length (trace w2) ≤ n)%nat → fault env2 n = None) →
  ∃ w2' seg,
    getOrCreateFolder env2 auth2 folderPath w2 = Ok r w2' ∧
    drive w2' = drive w2 ∧
    trace w2' = trace w2 ++ seg ∧
    Forall is_list_call seg ∧ length seg = length (folder_names folderPath).
Proof.
  unfold getOrCreateFolder. munfold. fold (folder_names folderPath).
  intros Hres Hdrive Hfault.
  destruct (resolve_folders env (folder_names folderPath) None w) as [r0 w0| |] eqn:Hfirst;
    [|done..].
  injection Hres as -> ->.
  destruct (resolve_folders_again env env2 _ _ _ _ _ w2 ext Hfirst Hdrive Hfault)
    as (w2' & seg & Hres2 & ?). exists w2', seg. by rewrite Hres2.
Qed.

(* ===================================================================== *)
(** * The branches of authorize                                           *)
(* ===================================================================== *)

(** The branches of [authorize], by what the two files hold and how the
    refresh at the start ends. *)
Lemma authorize_cases cfg env w :
  match fs w !! CREDENTIALS_PATH cfg with
  | Some (FClientSecret installed) =>
      match fs w !! TOKEN_PATH cfg with
      | Some (FToken token) =>
          if no_refresh_token token
          then authorize cfg env w = manual_authentication cfg env (client_of installed) w
          else
            match fault env (length (trace w)) with
            | None =>
                authorize cfg env w =
                Ok (on_tokens (listener_loaded cfg env token)
                      (setCredentials
                         (default token (refreshed_credentials env (length (trace w))))
                         (client_of installed)))
                   (log_event EvGetAccessToken w)
            | Some _ =>
                authorize cfg env w =
                manual_authentication cfg env (client_of installed)
                  (log_event EvGetAccessToken w)
            end
      | _ => authorize cfg env w = manual_authentication cfg env (client_of installed) w
      end
  | _ => ∃ message, authorize cfg env w = Throw message w
  end.
Proof.
  unfold authorize, read_installed, use_token_file, getAccessToken, read_token, extcall,
    client_of.
  munfold.
  destruct (fs w !! CREDENTIALS_PATH cfg) as [[text|installed|secret]|] eqn:Hsecret.
  - rewrite bool_decide_eq_true_2 by eauto. cbv beta iota. rewrite Hsecret. by eexists.
  - rewrite bool_decide_eq_true_2 by eauto. cbv beta iota. rewrite Hsecret. cbv beta iota.
    destruct (fs w !! TOKEN_PATH cfg) as [[text|secret|token]|] eqn:Hfile.
    + rewrite bool_decide_eq_true_2 by eauto. cbv beta iota. rewrite Hfile. cbv beta iota.
      by destruct (manual_authentication cfg env _ w).
    + rewrite bool_decide_eq_true_2 by eauto. cbv beta iota. rewrite Hfile. cbv beta iota.
      by destruct (manual_authentication cfg env _ w).
    + rewrite bool_decide_eq_true_2 by eauto. cbv beta iota. rewrite Hfile. cbv beta iota.
      destruct (no_refresh_token token) eqn:Hrefresh.
      * by destruct (manual_authentication cfg env _ w).
      * destruct (fault env (length (trace w))) as [message|];
          [|cbv beta iota; by destruct (refreshed_credentials env (length (trace w)))].
        cbv beta iota.
        destruct (Js.includes "invalid_grant" message);
          by destruct (manual_authentication cfg env _ _).
    + rewrite bool_decide_eq_false_2 by (by intros [? ?]). cbv beta iota.
      by destruct (manual_authentication cfg env _ w).
  - rewrite bool_decide_eq_true_2 by eauto. cbv beta iota. rewrite Hsecret. by eexists.
  - rewrite bool_decide_eq_false_2 by (by intros [? ?]). by eexists.
Qed.

(** What the manual authentication leaves: a client with the exchanged
    tokens, written to the token file, or an error and the files as they
    were. *)
Lemma manual_authentication_result cfg env client w :
  match manual_authentication cfg env client w with
  | Ok auth w' =>
      auth = on_tokens (listener_manual cfg env)
               (setCredentials (exchanged env (S (length (trace w)))) client) ∧
      no_refresh_token (exchanged env (S (length (trace w)))) = false ∧
      fs w' = <[TOKEN_PATH cfg := FToken (exchanged env (S (length (trace w))))]> (fs w)
  | Throw _ w' => fs w' = fs w
  | Exit _ _ => False
  end.
Proof.
  unfold manual_authentication, write_file, extcall. munfold. norm_len.
  destruct (fault env (S (length (trace w)))); [done|]. cbv beta iota.
  destruct (no_refresh_token _) eqn:Hrefresh; [done|]. norm_len.
  by destruct (fault env (S (S (length (trace w))))).
Qed.

(** The client [authorize] returns has one listener: the one of the branch
    that made it. *)
Lemma authorize_client cfg env w auth w' :
  authorize cfg env w = Ok auth w' →
  ∃ client, tokens_listeners client = [] ∧
    (auth = on_tokens (listener_manual cfg env) client ∨
     ∃ token, auth = on_tokens (listener_loaded cfg env token) client).
Proof.
  intros Hauth. pose proof (authorize_cases cfg env w) as Hcases.
  assert (∀ installed w1,
            authorize cfg env w = manual_authentication cfg env (client_of installed) w1 →
            ∃ client, tokens_listeners client = [] ∧
              (auth = on_tokens (listener_manual cfg env) client ∨
               ∃ token, auth = on_tokens (listener_loaded cfg env token) client)) as Hmanual.
  { intros installed w1 Heq. rewrite Hauth in Heq.
    pose proof (manual_authentication_result cfg env (client_of installed) w1) as Hres.
    rewrite <- Heq in Hres. destruct Hres as (-> & _). eexists. split; [|by left]. done. }
  destruct (fs w !! CREDENTIALS_PATH cfg) as [[text|installed|secret]|];
    try (destruct Hcases as [message Hthrow]; congruence).
  destruct (fs w !! TOKEN_PATH cfg) as [[text|secret|token]|]; try by eapply Hmanual.
  destruct (no_refresh_token token); [by eapply Hmanual|].
  destruct (fault env (length (trace w))); [by eapply Hmanual|].
  rewrite Hauth in Hcases. injection Hcases as -> ->.
  eexists. split; [|right; by eexists]. done.
Qed.

(** X17. Without a usable credentials file there is no start: when the file
    is missing, is not JSON or has no [installed] member, [authorize] throws
    before any call is made, the world is as it was, and the start ends the
    process with code 1. *)
Theorem unreadable_credentials_end_the_start cfg env w :
  (∀ installed, fs w !! CREDENTIALS_PATH cfg ≠ Some (FClientSecret installed)) →
  (∃ message, authorize cfg env w = Throw message w) ∧
  startup cfg env w = Exit 1 w.
Proof.
  intros Hsecret. pose proof (authorize_cases cfg env w) as Hcases.
  assert (∃ message, authorize cfg env w = Throw message w) as [message Hauth].
  { destruct (fs w !! CREDENTIALS_PATH cfg) as [[text|installed|secret]|]; try done.
    by destruct (Hsecret installed). }
  split; [by exists message|].
  unfold startup. munfold. by rewrite Hauth.
Qed.

(** X18. A token file that cannot be used is treated as no token file: when
    it is missing, is not JSON or has no refresh token, [authorize] makes no
    refresh and is the manual authentication, run by the client built from
    the credentials file. *)
Theorem unusable_token_file_asks_operator cfg env w installed :
  fs w !! CREDENTIALS_PATH cfg = Some (FClientSecret installed) →
  ¬ usable_token_file cfg w →
  authorize cfg env w = manual_authentication cfg env (client_of installed) w.
Proof.
  intros Hsecret Hunusable. pose proof (authorize_cases cfg env w) as Hcases.
  rewrite Hsecret in Hcases.
  destruct (fs w !! TOKEN_PATH cfg) as [[text|secret|token]|] eqn:Hfile; try done.
  destruct (no_refresh_token token) eqn:Hrefresh; [done|].
  destruct Hunusable. by exists token.
Qed.

(** X19. Every failure of the refresh at the start leads to the operator,
    whether or not its message holds [invalid_grant]: the two branches of
    lines 50-58 both throw into the [catch] of line 73, and [authorize] goes
    on as the manual authentication. *)
Theorem failed_refresh_asks_operator cfg env w installed token message :
  fs w !! CREDENTIALS_PATH cfg = Some (FClientSecret installed) →
  fs w !! TOKEN_PATH cfg = Some (FToken token) →
  no_refresh_token token = false →
  fault env (length (trace w)) = Some message →
  authorize cfg env w =
  manual_authentication cfg env (client_of installed) (log_event EvGetAccessToken w).
Proof.
  intros Hsecret Htoken Hrefresh Hfault. pose proof (authorize_cases cfg env w) as Hcases.
  by rewrite Hsecret, Htoken, Hrefresh, Hfault in Hcases.
Qed.


(** X21. A ["tokens"] event on the client [authorize] returned never throws
    and touches nothing but the token file: it makes one write of the token
    file, with a content that holds every member of the event; the file has
    that content when the write succeeds and is as it was when the write
    fails, the failure being swallowed.  The Drive and the tables are as they
    were. *)
Theorem refresh_event_rewrites_token_file cfg env w auth w0 tokens w1 :
  authorize cfg env w = Ok auth w0 →
  ∃ content w2,
    emit_tokens auth tokens w1 = Ok tt w2 ∧
    tokens ⊆ content ∧
    trace w2 = trace w1 ++ [EvWriteFile (TOKEN_PATH cfg) (FToken content)] ∧
    fs w2 = match fault env (length (trace w1)) with
            | None => <[TOKEN_PATH cfg := FToken content]> (fs w1)
            | Some _ => fs w1
            end ∧
    drive w2 = drive w1 ∧
    tb_SMART_INVOICE w2 = tb_SMART_INVOICE w1 ∧
    tb_SMS_LOG w2 = tb_SMS_LOG w1.
Proof.
  intros Hauth.
  destruct (authorize_client cfg env w auth w0 Hauth) as (client & Hnone & [->|[token ->]]).
  - exists tokens. unfold emit_tokens, on_tokens. simpl. rewrite Hnone. simpl.
    unfold listener_manual, write_file, extcall. munfold.
    destruct (fault env (length (trace w1))); by eexists.
  - exists (tokens ∪ token). unfold emit_tokens, on_tokens. simpl. rewrite Hnone. simpl.
    unfold listener_loaded, write_file, extcall. munfold.
    destruct (fault env (length (trace w1))); eexists;
      (split; [done|]); (split; [apply map_union_subseteq_l|done]).
Qed.

(* ===================================================================== *)
(** * What a sweep leaves                                                 *)
(* ===================================================================== *)

Lemma sweep_loop_frame env threshold files w :
  let w' := world_of (for_of files (delete_if_old env threshold) w) in
  drive w' `sublist_of` drive w ∧ same_database w w'.
Proof.
  revert w. induction files as [|file files IH]; intros w; [done|].
  cbv zeta. rewrite for_of_cons_step, delete_if_old_step.
  destruct (bool_decide (createdTime file < threshold)); [|apply IH].
  destruct (fault env _); [done|].
  destruct (IH (set_drive (filter (λ f, fileId f ≠ fileId file))
                  (log_event (EvFilesDelete (fileId file)) w))) as [Hsub Hsame].
  split; [|done]. etrans; [exact Hsub|]. apply sublist_filter.
Qed.

(** X22. A sweep only deletes: the files it leaves in the Drive are files
    that were there, unchanged and in their order; the pool and the tables
    are as they were; and when its listing fails it deletes nothing.  (The
    token file is left out: a refresh of the access token during a request
    of the sweep makes the client emit ["tokens"], and the listener writes
    the file; see [Callback].) *)
Theorem sweep_only_deletes env auth folderId w :
  let w' := world_of (deleteOldFiles env auth folderId w) in
  drive w' `sublist_of` drive w ∧
  same_database w w' ∧
  (fault env (length (trace w)) ≠ None → drive w' = drive w).
Proof.
  cbv zeta. rewrite deleteOldFiles_unfold.
  destruct (fault env (length (trace w))); [done|].
  pose proof (sweep_loop_frame env (oneWeekAgo env (clock env (length (trace w))))
                (sweep_listing folderId w)
                (log_event (EvFilesList (QPdfIn folderId)) w)) as [Hsub Hsame].
  by destruct (for_of _ _ _).
Qed.

(* ===================================================================== *)
(** * More of the program at concrete inputs                              *)
(* ===================================================================== *)

(** [tick_call_structure] at work: a tick over the two pending rows of
    [world1]. *)
Lemma tick_call_structure_witness :
  ∃ w' segs,
    poll_tick env_ok auth0 folder0 world1 = Ok tt w' ∧ pool w' = true ∧
    trace w' = EvSelectPending :: concat segs ∧
    Forall2 (row_segment folder0) [row1; row2] segs.
Proof. apply (tick_call_structure env_ok auth0 folder0 world1). reflexivity. Defined.

(** [connection_made_once] at work: two ticks of a process that has not
    connected yet. *)
Lemma connection_made_once_witness :
  ∃ rest, new_events (poll_ticks env_ok auth0 folder0 2) world0 = EvConnect :: rest ∧
          Forall (λ e, e ≠ EvConnect) rest.
Proof. apply (proj2 (connection_made_once env_ok auth0 folder0 1 world0)); reflexivity. Defined.

(** [invalid_phones_stay_pending] at work: three ticks over a row whose phone
    number has nine digits and no prefix. *)
Lemma invalid_phones_stay_pending_witness :
  ∃ w', poll_ticks env_ok auth0 folder0 3 world_invalid = Ok tt w' ∧
    trace w' = trace world_invalid ++ replicate 3 EvSelectPending ∧
    tb_SMART_INVOICE w' = tb_SMART_INVOICE world_invalid ∧
    pending w' = pending world_invalid ∧
    tb_SMS_LOG w' = tb_SMS_LOG world_invalid ∧ drive w' = drive world_invalid.
Proof.
  apply (invalid_phones_stay_pending env_ok auth0 folder0 3 world_invalid); [reflexivity|].
  intros r Hr. change (r ∈ [row3]) in Hr. apply list_elem_of_singleton in Hr.
  rewrite Hr. reflexivity.
Defined.

(** [normalised_phone_is_fixed] at work, for the number of [row1]. *)
Lemma normalised_phone_is_fixed_witness :
  customerPhone_of "0771234567" = Some "0771234567".
Proof. apply (normalised_phone_is_fixed "94771234567"). reflexivity. Defined.

(** [failed_upload_leaves_row_pending] at work: the sharing of the file of
    [row1] fails. *)
Lemma failed_upload_witness :
  ∃ w', poll_row env_sharing_fails auth0 folder0 row1 world1 = Ok tt w' ∧
    trace w' = trace world1 ++
      [EvFilesCreate (FILENAME row1) pdf_mime folder0;
       EvPermissionsCreate (fileId (uploaded_file env_sharing_fails folder0 row1 0))] ∧
    tb_SMART_INVOICE w' = tb_SMART_INVOICE world1 ∧
    tb_SMS_LOG w' = tb_SMS_LOG world1 ∧
    drive w' = drive world1 ++ [uploaded_file env_sharing_fails folder0 row1 0] ∧
    anyone_reader (uploaded_file env_sharing_fails folder0 row1 0) = false.
Proof.
  apply (proj2 (failed_upload_leaves_row_pending env_sharing_fails auth0 folder0 row1
                  "0771234567" "insufficientFilePermissions" world1 eq_refl));
    reflexivity.
Defined.

(** [retry_after_failed_sharing_duplicates] at work: [row1] twice, the first
    sharing failing. *)
Lemma retry_after_failed_sharing_witness :
  ∃ w1 w2 old d1 d2,
    poll_row env_sharing_fails auth0 folder0 row1 world1 = Ok tt w1 ∧
    poll_row env_sharing_fails auth0 folder0 row1 w1 = Ok tt w2 ∧
    drive w2 = old ++ [d1; d2] ∧ length old = length (drive world1) ∧
    document_of folder0 (FILENAME row1) d1 ∧
    document_of folder0 (FILENAME row1) d2 ∧
    anyone_reader d2 = true.
Proof.
  apply (retry_after_failed_sharing_duplicates env_sharing_fails auth0 folder0 row1
           "0771234567" "insufficientFilePermissions" world1);
    reflexivity.
Defined.

(** [notified_link_is_public] at work, for [row1]. *)
Lemma notified_link_witness :
  ∃ w1 link f,
    poll_row env_ok auth0 folder0 row1 world1 =
      sendSMS env_ok "0771234567" (CUSTOMERID row1) link w1 ∧
    f ∈ drive w1 ∧ webViewLink f = link ∧ anyone_reader f = true ∧
    document_of folder0 (FILENAME row1) f.
Proof.
  apply (notified_link_is_public env_ok auth0 folder0 row1 "0771234567" world1);
    reflexivity.
Defined.

(** [log_row_only_for_accepted_message] at work, for the customer of [row1]:
    the message is accepted and the row is written. *)
Lemma log_row_witness :
  ∃ r0,
    tb_SMS_LOG (world_of (sendSMS env_ok "0771234567" "C001" "https://d/1" world1)) =
      tb_SMS_LOG world1 ++ [log_record r0 "0771234567" "C001" "https://d/1"] ∧
    head (filter (λ r, CUSTOMER_ID r = "C001") (tb_SMS_MAIN world1)) = Some r0 ∧
    SMARTINVOICE_ACTIVE r0 = "T" ∧
    status_token (http_data env_ok (S (S (length (trace world1))))) = "OK" ∧
    fault env_ok (S (S (length (trace world1)))) = None ∧
    new_events (sendSMS env_ok "0771234567" "C001" "https://d/1") world1 =
      notify_calls r0 "0771234567" "C001" "https://d/1".
Proof.
  destruct (log_row_only_for_accepted_message env_ok "0771234567" "C001" "https://d/1"
              world1 eq_refl) as [Hsame|Hrow]; [|exact Hrow].
  vm_compute in Hsame. discriminate Hsame.
Defined.

(** [accepted_answers] at work. *)
Lemma accepted_answers_witness :
  status_token (" " +:+ "OK" +:+ " " +:+ ":12345") = "OK".
Proof.
  apply (accepted_answers " " " " ":12345"); [reflexivity|reflexivity|].
  right. reflexivity.
Defined.

(** [gateway_request_escapes_text] at work, for the customer of [row1] and a
    link with a query. *)
Lemma gateway_request_witness :
  ∃ r0,
    head (filter (λ r, CUSTOMER_ID r = "C001") (tb_SMS_MAIN world1)) = Some r0 ∧
    gateway_url profile1 "0771234567" "https://d/1?a=b&c" =
      gateway_url_head r0 "0771234567" +:+
      Js.escape ("Dear customer, your bill is available at: " +:+ "https://d/1?a=b&c") ∧
    all_url_safe
      (Js.escape ("Dear customer, your bill is available at: " +:+ "https://d/1?a=b&c")) =
      true.
Proof.
  apply (gateway_request_escapes_text env_ok "0771234567" "C001" "https://d/1?a=b&c" world1);
    [reflexivity|].
  vm_compute. repeat constructor.
Defined.

(** [getOrCreateFolder_again] at work: a path of two segments on an empty
    Drive, resolved twice. *)
Lemma getOrCreateFolder_again_witness :
  ∃ w2' seg,
    getOrCreateFolder env_ok auth0 "Smart_Invoice/Invoices"
      (world_of (getOrCreateFolder env_ok auth0 "Smart_Invoice/Invoices" world1)) =
      Ok (Some "file3") w2' ∧
    drive w2' =
      drive (world_of (getOrCreateFolder env_ok auth0 "Smart_Invoice/Invoices" world1)) ∧
    trace w2' =
      trace (world_of (getOrCreateFolder env_ok auth0 "Smart_Invoice/Invoices" world1)) ++ seg ∧
    Forall is_list_call seg ∧ length seg = 2%nat.
Proof.
  apply (getOrCreateFolder_again env_ok auth0 env_ok auth0 "Smart_Invoice/Invoices" world1
           (Some "file3")
           (world_of (getOrCreateFolder env_ok auth0 "Smart_Invoice/Invoices" world1))
           (world_of (getOrCreateFolder env_ok auth0 "Smart_Invoice/Invoices" world1)) []).
  - vm_compute. reflexivity.
  - symmetry. apply app_nil_r.
  - intros n _. reflexivity.
Defined.

(** [unreadable_credentials_end_the_start] at work: no credentials file. *)
Lemma unreadable_credentials_witness :
  startup cfg0 env_ok world_no_credentials = Exit 1 world_no_credentials.
Proof.
  assert (∀ installed, fs world_no_credentials !! CREDENTIALS_PATH cfg0 ≠
                       Some (FClientSecret installed)) as Hmissing
    by (intros installed H; vm_compute in H; discriminate H).
  exact (proj2 (unreadable_credentials_end_the_start cfg0 env_ok world_no_credentials
                  Hmissing)).
Defined.

(** [unusable_token_file_asks_operator] at work: the first run. *)
Lemma unusable_token_file_witness :
  authorize cfg0 env_ok world_first_run =
  manual_authentication cfg0 env_ok (client_of installed0) world_first_run.
Proof.
  apply (unusable_token_file_asks_operator cfg0 env_ok world_first_run installed0);
    [reflexivity|].
  intros (token & Hfile & _). vm_compute in Hfile. discriminate Hfile.
Defined.

(** [failed_refresh_asks_operator] at work: the refresh fails for want of a
    network. *)
Lemma failed_refresh_witness :
  authorize cfg0 env_offline world0 =
  manual_authentication cfg0 env_offline (client_of installed0)
    (log_event EvGetAccessToken world0).
Proof.
  apply (failed_refresh_asks_operator cfg0 env_offline world0 installed0 tokens0
           "getaddrinfo ENOTFOUND oauth2.googleapis.com");
    reflexivity.
Defined.

(** [refresh_event_rewrites_token_file] at work: a refresh after a start that
    found the token file. *)
Lemma refresh_event_witness :
  ∃ content w2,
    emit_tokens
      (on_tokens (listener_loaded cfg0 env_ok tokens0)
         (setCredentials tokens0 (client_of installed0)))
      refreshed (log_event EvGetAccessToken world0) = Ok tt w2 ∧
    refreshed ⊆ content ∧
    trace w2 = trace (log_event EvGetAccessToken world0) ++
               [EvWriteFile (TOKEN_PATH cfg0) (FToken content)] ∧
    fs w2 = match fault env_ok (length (trace (log_event EvGetAccessToken world0))) with
            | None => <[TOKEN_PATH cfg0 := FToken content]> (fs (log_event EvGetAccessToken world0))
            | Some _ => fs (log_event EvGetAccessToken world0)
            end ∧
    drive w2 = drive (log_event EvGetAccessToken world0) ∧
    tb_SMART_INVOICE w2 = tb_SMART_INVOICE (log_event EvGetAccessToken world0) ∧
    tb_SMS_LOG w2 = tb_SMS_LOG (log_event EvGetAccessToken world0).
Proof.
  apply (refresh_event_rewrites_token_file cfg0 env_ok world0 _
           (log_event EvGetAccessToken world0) refreshed (log_event EvGetAccessToken world0)).
  apply (authorize_loaded_path cfg0 env_ok world0 installed0 tokens0); reflexivity.
Defined.

(** [uploadToDrive_result] at work: the upload of the document of [row1]. *)
Lemma uploadToDrive_result_witness :
  ∃ f,
    f ∈ drive (world_of (uploadToDrive env_ok auth0 (PDFDATA row1) "inv1.pdf" folder0
                           world1)) ∧
    webViewLink f = "https://drive.google.com/file/d/file0/view" ∧
    anyone_reader f = true ∧ document_of folder0 "inv1.pdf" f.
Proof.
  apply (proj1 (proj2 (uploadToDrive_result env_ok auth0 (PDFDATA row1) "inv1.pdf" folder0
                         world1))).
  vm_compute. reflexivity.
Defined.

(** [getOrCreateFolder_result] at work: a path of two segments on an empty
    Drive. *)
Lemma getOrCreateFolder_result_witness :
  ∃ f,
    f ∈ drive (world_of (getOrCreateFolder env_ok auth0 "Smart_Invoice/Invoices" world1)) ∧
    Some "file3" = Some (fileId f) ∧ folder_named "Invoices" f.
Proof.
  apply (proj2 (getOrCreateFolder_result env_ok auth0 "Smart_Invoice/Invoices" world1)
           (Some "file3")
           (world_of (getOrCreateFolder env_ok auth0 "Smart_Invoice/Invoices" world1))).
  vm_compute. reflexivity.
Defined.

